(** * Crawl frontier and rule-based action classifier of the stagehand crawler

    A shallow embedding of
    - [src/lib/crawler/PageCrawler.ts]   (the element model, [generateDescription]),
    - [src/lib/crawler/ActionAnalyzer.ts] (the four rule-based detectors),
    - the crawl loop of the runner script (queue, visited set, link filter),
    together with the properties the specification states about them.

    Modelling conventions.
    - JavaScript strings are [string]; [toLowerCase] acts on the ASCII letters.
    - An attribute bag ([Record<string, string>]) is a [gmap string string];
      [a.k?.f()] on a missing key is falsy.
    - Page coordinates are integers ([Z]).  JavaScript numbers are IEEE 754
      doubles: [calculateDistance] is computed with the rounding of each of
      its operations ([Module Double]), and [findNearbyElements] compares
      the rounded results.
    - [Array.prototype.sort] is stable; it is modelled by a stable insertion
      sort.
    - Confidence scores are the decimal literals of the source, as rationals.
    - The logger is an arbitrary state transformer on an abstract log. *)

From Stdlib Require Import ZArith QArith Ascii String List Lia Permutation Sorted.
From stdpp Require Import base decidable gmap strings list pretty.

Local Open Scope Z_scope.

(** ** JavaScript string primitives *)

Module JS.

Definition lowerAscii (c : ascii) : ascii :=
let n := nat_of_ascii c in
if ((65 <=? n) && (n <=? 90))%nat then ascii_of_nat (n + 32) else c.

(** [s.toLowerCase()] *)
Fixpoint toLowerCase (s : string) : string :=
match s with
| EmptyString => EmptyString
| String c s' => String (lowerAscii c) (toLowerCase s')
end.

(** [s.includes(sub)] *)
Fixpoint includes (s sub : string) : bool :=
String.prefix sub s ||
match s with
| EmptyString => false
| String _ s' => includes s' sub
end.

(** [s.substring(0, n)] *)
Fixpoint substring0 (n : nat) (s : string) : string :=
match n, s with
| O, _ => EmptyString
| S _, EmptyString => EmptyString
| S n', String c s' => String c (substring0 n' s')
end.

(** [parts.join(sep)] *)
Fixpoint join (sep : string) (parts : list string) : string :=
match parts with
| [] => EmptyString
| [p] => p
| p :: rest => p +:+ sep +:+ join sep rest
end.

(** The double-quote character. *)
Definition dquote : string := String (ascii_of_nat 34) EmptyString.

(** Truthiness of an optional string: [undefined] and the empty string
    are falsy. *)
Definition truthy (o : option string) : bool :=
match o with
| Some s => negb (String.eqb s EmptyString)
| None => false
end.

End JS.

(** ** The element model ([PageCrawler.ts]) *)

Record Position := mkPosition { x : Z; y : Z }.

Module El.
Record t := mk {
  selector : string;
  description : string;
  type : string;
  attributes : gmap string string;
  text : string;
  isInteractive : bool;
  position : Position
}.
End El.
Abbreviation ElementInfo := El.t.

Module CR.
Record t := mk {
  url : string;
  elements : list ElementInfo;
  timestamp : Z
}.
End CR.
Abbreviation CrawlResult := CR.t.

Module UA.
Record t := mk {
  type : string;
  name : string;
  description : string;
  elements : list ElementInfo;
  url : string;
  confidence : Q
}.
End UA.
Abbreviation UserAction := UA.t.

#[global] Instance Position_eq_dec : EqDecision Position.
Proof. solve_decision. Defined.

#[global] Instance ElementInfo_eq_dec : EqDecision ElementInfo.
Proof. solve_decision. Defined.

(** [PageCrawler.generateDescription] *)
Definition generateDescription (type : string) (attributes : gmap string string)
  (text : string) : string :=
let quoted (pre v : string) := pre +:+ JS.dquote +:+ v +:+ JS.dquote in
let part (key pre : string) : list string :=
  if JS.truthy (attributes !! key)
  then [quoted pre (default EmptyString (attributes !! key))] else [] in
JS.join " "
  ([type]
   ++ part "id" "with id "
   ++ part "name" "named "
   ++ part "placeholder" "with placeholder "
   ++ part "aria-label" "labeled "
   ++ part "role" "with role "
   ++ (if JS.truthy (Some text)
       then [quoted "containing "
               (JS.substring0 50 text +:+
                (if (50 <? String.length text)%nat then "..." else EmptyString))]
       else [])).

(** The element record [parseOutputString] pushes for a DOM node. *)
Definition extracted (xpath type : string) (attributes : gmap string string)
  (text : string) (isInteractive : bool) (px py : Z) : ElementInfo :=
El.mk ("xpath=" +:+ xpath) (generateDescription type attributes text)
  type attributes text isInteractive (mkPosition px py).

(** ** Attribute and text matching shared by the detectors *)

Section Matching.
Variable el : ElementInfo.

(** [el.type === t] *)
Definition tagIs (t : string) : bool := String.eqb (El.type el) t.

(** [el.attributes.k === v] *)
Definition attrIs (k v : string) : bool :=
match El.attributes el !! k with
| Some w => String.eqb w v
| None => false
end.

(** [el.attributes.k?.toLowerCase().includes(sub)] *)
Definition attrIncludes (k sub : string) : bool :=
match El.attributes el !! k with
| Some w => JS.includes (JS.toLowerCase w) sub
| None => false
end.

(** [el.text.toLowerCase().includes(sub)] *)
Definition textIncludes (sub : string) : bool :=
JS.includes (JS.toLowerCase (El.text el)) sub.

(** [el.description.toLowerCase().includes(sub)] *)
Definition descriptionIncludes (sub : string) : bool :=
JS.includes (JS.toLowerCase (El.description el)) sub.

End Matching.

(** ** Geometry ([calculateDistance], [findNearbyElements]) *)

(** Double-precision arithmetic on the values [calculateDistance] meets.
    The coordinates are integers that are doubles (every integer up to
    2^53 is one).  A difference of two of them, its square and the sum of
    two squares are then integers or infinite, and only magnitudes matter,
    since the differences are squared.  A magnitude is [Some n], or [None]
    for [Infinity].  Every operation returns the double nearest to the
    exact result, halfway cases going to the even significand.
    ([Math.pow(d, 2)] is exact whenever [d * d] is a double, which covers
    every square below 2^53; above, the language leaves the last bit to the
    engine and the correctly rounded square is taken.) *)
Module Double.

(** The double nearest to the natural number [n]: [n] itself below 2^53,
    else [n] cut to its 53 leading bits. *)
Definition roundInteger (n : Z) : Z :=
if n <? 2 ^ 53 then n else
let k := Z.log2 n - 52 in
let q := Z.shiftr n k in
let rest := n - Z.shiftl q k in
let half := 2 ^ (k - 1) in
if (half <? rest) || ((rest =? half) && Z.odd q)
then Z.shiftl (q + 1) k else Z.shiftl q k.

(** Results from 2^1024 on are [Infinity]. *)
Definition round (n : Z) : option Z :=
let r := roundInteger n in if r <? 2 ^ 1024 then Some r else None.

(** The magnitude of [b - a]. *)
Definition distance (a b : Z) : option Z := round (Z.abs (b - a)).

(** [Math.pow(d, 2)] for a [d] of magnitude [m]. *)
Definition square (m : option Z) : option Z := m ≫= fun n => round (n * n).

(** [a + b] *)
Definition add (a b : option Z) : option Z :=
a ≫= fun m => b ≫= fun n => round (m + n).

(** [Math.sqrt(n)] for a natural number [n], in units of 2^-52.  The root
    of a positive integer is at least 1, so its double is a multiple of
    2^-52: with [2^e <= sqrt n < 2^(e+1)] it is [m * 2^(e-52)], where [m] is
    the integer nearest to [sqrt (n * 4^(52-e))]. *)
Definition sqrtScaled (n : Z) : Z :=
if n <=? 0 then 0 else
let e := Z.log2 (Z.sqrt n) in
let t := 2 * (52 - e) in
let N := Z.shiftl n t in
let exact := Z.shiftr N t =? n in
let k := Z.sqrt N in
let m :=
  if (k * k + k <? N) || ((k * k + k =? N) && negb exact) then k + 1 else k in
Z.shiftl m e.

(** [Infinity] in the same units: above every finite double. *)
Definition infinity : Z := 2 ^ 1076.

(** [Math.sqrt(s)], in units of 2^-52. *)
Definition sqrt (s : option Z) : Z := from_option sqrtScaled infinity s.

End Double.

(** [calculateDistance(p1, p2)], in units of 2^-52:
    [Math.sqrt(Math.pow(p2.x - p1.x, 2) + Math.pow(p2.y - p1.y, 2))]. *)
Definition calculateDistance (p1 p2 : Position) : Z :=
Double.sqrt
  (Double.add (Double.square (Double.distance (x p1) (x p2)))
              (Double.square (Double.distance (y p1) (y p2)))).

Section StableSort.
Context {A : Type} (key : A -> Z).

Fixpoint insertByKey (a : A) (l : list A) : list A :=
match l with
| [] => [a]
| b :: l' => if key a <=? key b then a :: l else b :: insertByKey a l'
end.

(** Stable sort by ascending key. *)
Definition sortByKey (l : list A) : list A := fold_right insertByKey [] l.

End StableSort.

(** [findNearbyElements(reference, candidates)]: a copy of the candidates,
    sorted by the comparator [distA - distB].  The difference of two doubles
    is negative, zero or positive as the first is below, equal to or above
    the second, and [Infinity - Infinity] is [NaN], which [sort] takes for
    zero: the candidates are sorted by ascending computed distance. *)
Definition findNearbyElements (reference : ElementInfo)
  (candidates : list ElementInfo) : list ElementInfo :=
sortByKey
  (fun c => calculateDistance (El.position reference) (El.position c))
  candidates.

(** ** The rule-based detectors ([ActionAnalyzer.ts]) *)

(** *** Login forms *)

Definition isUsernameInput (el : ElementInfo) : bool :=
tagIs el "input" &&
(attrIs el "type" "text" || attrIs el "type" "email") &&
(attrIncludes el "name" "user" ||
 attrIncludes el "name" "email" ||
 attrIncludes el "name" "login" ||
 attrIncludes el "id" "user" ||
 attrIncludes el "id" "email" ||
 attrIncludes el "id" "login" ||
 attrIncludes el "placeholder" "user" ||
 attrIncludes el "placeholder" "email" ||
 descriptionIncludes el "username" ||
 descriptionIncludes el "email").

Definition isPasswordInput (el : ElementInfo) : bool :=
tagIs el "input" &&
(attrIs el "type" "password" ||
 attrIncludes el "name" "pass" ||
 attrIncludes el "id" "pass" ||
 attrIncludes el "placeholder" "pass" ||
 descriptionIncludes el "password").

Definition isLoginSubmit (el : ElementInfo) : bool :=
(tagIs el "button" || tagIs el "input") &&
(attrIs el "type" "submit" ||
 textIncludes el "log in" ||
 textIncludes el "login" ||
 textIncludes el "sign in" ||
 textIncludes el "signin" ||
 descriptionIncludes el "login" ||
 descriptionIncludes el "sign in").

Definition loginFull (url : string) (u p s : ElementInfo) : UserAction :=
UA.mk "login" "Login"
  "Login form with username/email and password fields"
  [u; p; s] url (9 # 10).

Definition loginPartial (url : string) (u p : ElementInfo) : UserAction :=
UA.mk "login" "Login"
  "Partial login form with username/email and password fields"
  [u; p] url (7 # 10).

(** The body of the loop over [usernameInputs]. *)
Definition loginFor (url : string) (passwordInputs submitButtons : list ElementInfo)
  (usernameInput : ElementInfo) : list UserAction :=
match findNearbyElements usernameInput passwordInputs with
| [] => []
| password0 :: _ =>
  match findNearbyElements password0 submitButtons with
  | submit0 :: _ => [loginFull url usernameInput password0 submit0]
  | [] => [loginPartial url usernameInput password0]
  end
end.

Definition identifyLoginForms (cr : CrawlResult) : list UserAction :=
let elements := CR.elements cr in
let url := CR.url cr in
let usernameInputs := List.filter isUsernameInput elements in
let passwordInputs := List.filter isPasswordInput elements in
let submitButtons := List.filter isLoginSubmit elements in
if ((0 <? length usernameInputs) && (0 <? length passwordInputs))%nat
then flat_map (loginFor url passwordInputs submitButtons) usernameInputs
else [].

(** *** Search interfaces *)

Definition isSearchInput (el : ElementInfo) : bool :=
tagIs el "input" &&
(attrIs el "type" "search" ||
 attrIncludes el "name" "search" ||
 attrIncludes el "id" "search" ||
 attrIncludes el "placeholder" "search" ||
 descriptionIncludes el "search").

Definition isSearchButton (el : ElementInfo) : bool :=
(tagIs el "button" || tagIs el "input") &&
(attrIs el "type" "submit" ||
 textIncludes el "search" ||
 descriptionIncludes el "search" ||
 attrIncludes el "class" "search").

Definition searchFull (url : string) (i b : ElementInfo) : UserAction :=
UA.mk "search" "Search"
  "Search interface with input field and search button"
  [i; b] url (9 # 10).

Definition searchInputOnly (url : string) (i : ElementInfo) : UserAction :=
UA.mk "search" "Search" "Search input field" [i] url (7 # 10).

(** The body of the loop over [searchInputs]. *)
Definition searchFor (url : string) (searchButtons : list ElementInfo)
  (searchInput : ElementInfo) : list UserAction :=
match findNearbyElements searchInput searchButtons with
| button0 :: _ => [searchFull url searchInput button0]
| [] => [searchInputOnly url searchInput]
end.

Definition identifySearchInterfaces (cr : CrawlResult) : list UserAction :=
let elements := CR.elements cr in
let url := CR.url cr in
let searchInputs := List.filter isSearchInput elements in
let searchButtons := List.filter isSearchButton elements in
flat_map (searchFor url searchButtons) searchInputs.

(** *** Navigation menus *)

Definition isNavElement (el : ElementInfo) : bool :=
tagIs el "nav" ||
attrIs el "role" "navigation" ||
attrIncludes el "class" "nav" ||
attrIncludes el "id" "nav" ||
attrIncludes el "class" "menu" ||
attrIncludes el "id" "menu".

(** [el.type === "a" && el.attributes.href] *)
Definition isLink (el : ElementInfo) : bool :=
tagIs el "a" && JS.truthy (El.attributes el !! "href").

(** The position test the detectors use for "is likely inside":
    [e] lies in the box of the given height and width whose top-left
    corner is the position of [container]. *)
Definition insideBox (height width : Z) (container e : ElementInfo) : bool :=
(y (El.position container) <=? y (El.position e)) &&
(y (El.position e) <=? y (El.position container) + height) &&
(x (El.position container) <=? x (El.position e)) &&
(x (El.position e) <=? x (El.position container) + width).

Definition navContainerAction (url : string) (navElement : ElementInfo)
  (navLinks : list ElementInfo) : UserAction :=
UA.mk "navigation" "Navigation Menu"
  ("Navigation menu with " +:+ pretty (length navLinks) +:+ " links")
  (navElement :: navLinks) url (8 # 10).

Definition navGroupAction (url : string) (group : list ElementInfo) : UserAction :=
UA.mk "navigation" "Navigation Menu"
  ("Horizontal navigation menu with " +:+ pretty (length group) +:+ " links")
  group url (7 # 10).

(** The body of the loop over [navElements]. *)
Definition navFor (url : string) (links : list ElementInfo)
  (navElement : ElementInfo) : list UserAction :=
let navLinks := List.filter (insideBox 100 1000 navElement) links in
if (3 <=? length navLinks)%nat
then [navContainerAction url navElement navLinks] else [].

(** [Math.abs(link.position.y - firstLink.position.y) < 20] *)
Definition nearRow (link firstLink : ElementInfo) : bool :=
Z.abs (y (El.position link) - y (El.position firstLink)) <? 20.

(** The inner loop over [linkGroups]: push [link] on the first group whose
    first member is on its row; [None] when [added] stays false.  A group
    is created with one member and only grows, so the empty case is never
    reached. *)
Fixpoint addToGroup (link : ElementInfo) (linkGroups : list (list ElementInfo))
  : option (list (list ElementInfo)) :=
match linkGroups with
| [] => None
| group :: rest =>
  match group with
  | firstLink :: _ =>
    if nearRow link firstLink
    then Some ((group ++ [link]) :: rest)
    else option_map (cons group) (addToGroup link rest)
  | [] => option_map (cons group) (addToGroup link rest)
  end
end.

Definition groupStep (linkGroups : list (list ElementInfo)) (link : ElementInfo)
  : list (list ElementInfo) :=
match addToGroup link linkGroups with
| Some linkGroups' => linkGroups'
| None => linkGroups ++ [[link]]
end.

(** The loop over [links] that builds [linkGroups]. *)
Definition groupLinks (links : list ElementInfo) : list (list ElementInfo) :=
fold_left groupStep links [].

Definition navGroupFor (url : string) (group : list ElementInfo) : list UserAction :=
if (3 <=? length group)%nat then [navGroupAction url group] else [].

Definition identifyNavigationMenus (cr : CrawlResult) : list UserAction :=
let elements := CR.elements cr in
let url := CR.url cr in
let navElements := List.filter isNavElement elements in
let links := List.filter isLink elements in
let actions := flat_map (navFor url links) navElements in
if (length actions =? 0)%nat
then actions ++ flat_map (navGroupFor url) (groupLinks links)
else actions.

(** *** Forms *)

Definition isFormElement (el : ElementInfo) : bool := tagIs el "form".

Definition isInputElement (el : ElementInfo) : bool :=
tagIs el "input" || tagIs el "textarea" || tagIs el "select".

Definition isFormSubmit (el : ElementInfo) : bool :=
(tagIs el "button" || tagIs el "input") &&
(attrIs el "type" "submit" ||
 textIncludes el "submit" ||
 textIncludes el "send" ||
 textIncludes el "register" ||
 textIncludes el "sign up").

Definition isNameField (input : ElementInfo) : bool :=
attrIncludes input "name" "name" ||
attrIncludes input "id" "name" ||
attrIncludes input "placeholder" "name".

Definition isEmailField (input : ElementInfo) : bool :=
attrIs input "type" "email" ||
attrIncludes input "name" "email" ||
attrIncludes input "id" "email" ||
attrIncludes input "placeholder" "email".

Definition isPasswordField (input : ElementInfo) : bool :=
attrIs input "type" "password" ||
attrIncludes input "name" "password" ||
attrIncludes input "id" "password" ||
attrIncludes input "placeholder" "password".

Definition isMessageField (input : ElementInfo) : bool :=
tagIs input "textarea" ||
attrIncludes input "name" "message" ||
attrIncludes input "id" "message" ||
attrIncludes input "placeholder" "message".

Definition isSubjectField (input : ElementInfo) : bool :=
attrIncludes input "name" "subject" ||
attrIncludes input "id" "subject" ||
attrIncludes input "placeholder" "subject".

(** [(formType, formName, confidence)] as the chain of [if]s sets them. *)
Definition classifyForm (formInputs : list ElementInfo) : string * string * Q :=
let hasNameField := existsb isNameField formInputs in
let hasEmailField := existsb isEmailField formInputs in
let hasPasswordField := existsb isPasswordField formInputs in
let hasMessageField := existsb isMessageField formInputs in
let hasSubjectField := existsb isSubjectField formInputs in
if hasNameField && hasEmailField && hasPasswordField
then ("registration", "Registration Form", 9 # 10)
else if hasNameField && hasEmailField && hasMessageField
then ("contact", "Contact Form", 9 # 10)
else if hasEmailField && hasSubjectField && hasMessageField
then ("contact", "Contact Form", 9 # 10)
else ("form", "Form", 7 # 10).

Definition formAction (url : string) (formElement : ElementInfo)
  (formInputs formSubmitButtons : list ElementInfo) : UserAction :=
let '(formType, formName, confidence) := classifyForm formInputs in
UA.mk formType formName
  (formName +:+ " with " +:+ pretty (length formInputs) +:+ " input fields")
  (formElement :: formInputs ++ formSubmitButtons) url confidence.

(** The body of the loop over [formElements]. *)
Definition formFor (url : string) (inputElements submitButtons : list ElementInfo)
  (formElement : ElementInfo) : list UserAction :=
let formInputs := List.filter (insideBox 500 1000 formElement) inputElements in
let formSubmitButtons := List.filter (insideBox 500 1000 formElement) submitButtons in
if ((2 <=? length formInputs) && (0 <? length formSubmitButtons))%nat
then [formAction url formElement formInputs formSubmitButtons] else [].

Definition identifyForms (cr : CrawlResult) : list UserAction :=
let elements := CR.elements cr in
let url := CR.url cr in
let formElements := List.filter isFormElement elements in
let inputElements := List.filter isInputElement elements in
let submitButtons := List.filter isFormSubmit elements in
flat_map (formFor url inputElements submitButtons) formElements.

(** *** The classifier *)

Record LogLine := mkLogLine {
  category : string;
  message : string;
  level : nat
}.

Section Analyzer.
(** The analyzer is constructed with a logger; what the logger does with a
    line is outside the analyzer, so it is a transformer of an abstract
    log. *)
Context {Log : Type} (logger : LogLine -> Log -> Log).

(** [ActionAnalyzer.analyzeActions]: the returned actions and the log after
    the call. *)
Definition analyzeActions (crawlResult : CrawlResult) (log : Log)
  : list UserAction * Log :=
let log1 :=
  logger (mkLogLine "action-analyzer"
            ("Analyzing " +:+ pretty (length (CR.elements crawlResult))
             +:+ " elements for user actions") 1) log in
let actions :=
  (((([] ++ identifyLoginForms crawlResult)
       ++ identifySearchInterfaces crawlResult)
      ++ identifyNavigationMenus crawlResult)
     ++ identifyForms crawlResult) in
let log2 :=
  logger (mkLogLine "action-analyzer"
            ("Identified " +:+ pretty (length actions)
             +:+ " potential user actions") 1) log1 in
(actions, log2).

End Analyzer.

(** ** The crawl frontier (the runner's queue, visited set and link filter) *)

Module Frontier.

(** The fields of a parsed [URL] object the runner reads. *)
Record URL := mkURL {
  href : string;
  protocol : string;
  hostname : string;
  port : string;
  pathname : string;
  search : string;
  hash : string
}.

(** [urlQueue] and [crawledUrls], and the URLs for which a crawl was
    started (the "Starting crawl of ..." log lines), oldest first. *)
Record State := mkState {
  urlQueue : list string;
  crawledUrls : gset string;
  started : list string
}.

(** [`${u.protocol}//${u.hostname}${u.pathname}`] *)
Definition cleanUrlOf (u : URL) : string :=
protocol u +:+ "//" +:+ hostname u +:+ pathname u.

(** The login/logout filter on the clean URL. *)
Definition isSessionPage (cleanUrl : string) : bool :=
JS.includes cleanUrl "/login" || JS.includes cleanUrl "/logout" ||
JS.includes cleanUrl "/signin" || JS.includes cleanUrl "/signout".

Section Crawl.
(** [new URL(input, base)] of the platform; [None] when it throws. *)
Variable newURL : string -> option string -> option URL.
Variable startUrl : string.
Variable maxUrlsToCrawl : nat.
(** [new URL(startUrl)] *)
Variable baseUrlObj : URL.

(** The state before the loop. *)
Definition init : State := mkState [startUrl] ∅ [].

(** The body of the loop over the links extracted from the page at [url]. *)
Definition processLink (url : string) (st : State) (link : string) : State :=
match newURL link (Some url) with
| None => st
| Some absolute =>
  match newURL (href absolute) None with
  | None => st
  | Some linkUrlObj =>
    if negb (String.eqb (hostname linkUrlObj) (hostname baseUrlObj)) then st
    else
      let cleanUrl := cleanUrlOf linkUrlObj in
      if isSessionPage cleanUrl then st
      else if negb (bool_decide (cleanUrl ∈ crawledUrls st)) &&
              negb (bool_decide (cleanUrl ∈ urlQueue st))
      then mkState (urlQueue st ++ [cleanUrl]) (crawledUrls st) (started st)
      else st
  end
end.

(** The loop condition. *)
Definition guard (st : State) : bool :=
((0 <? length (urlQueue st)) && (size (crawledUrls st) <? maxUrlsToCrawl))%nat.

(** One pass through the loop body.  [page url] is what crawling [url]
    yields: the [href]s found on the page, or [None] when the crawl or
    the storage throws and the iteration ends in the [catch]. *)
Definition iteration (page : string -> option (list string)) (st : State) : State :=
match urlQueue st with
| [] => st
| url :: rest =>
  if bool_decide (url ∈ crawledUrls st)
  then mkState rest (crawledUrls st) (started st)
  else
    let st' := mkState rest ({[url]} ∪ crawledUrls st) (started st ++ [url]) in
    match page url with
    | None => st'
    | Some links => fold_left (processLink url) links st'
    end
end.

(** The [while] loop, run for at most [fuel] iterations. *)
Fixpoint crawlLoop (fuel : nat) (page : string -> option (list string))
  (st : State) : State :=
match fuel with
| O => st
| S fuel' => if guard st then crawlLoop fuel' page (iteration page st) else st
end.

(** What can happen to the frontier: a pass through the loop (taken only
    while the loop condition holds), or a link seen on the page at [url]
    being offered to the queue. *)
Inductive Attempt :=
| LoopPass (page : string -> option (list string))
| LinkSeen (url link : string).

Definition attempt (st : State) (a : Attempt) : State :=
match a with
| LoopPass page => if guard st then iteration page st else st
| LinkSeen url link => processLink url st link
end.

Definition attempts (l : list Attempt) (st : State) : State :=
fold_left attempt l st.

End Crawl.

(** *** A small URL reader for the examples

    Absolute [http(s)://host/path?query#fragment] inputs and path-absolute
    references ([/path?query#fragment]) against a base; everything else is
    refused.  It stands in for the platform's [URL] class in the examples
    below; the theorems hold for every reader. *)

Fixpoint breakAt (stop : ascii -> bool) (s : string) : string * string :=
match s with
| EmptyString => (EmptyString, EmptyString)
| String c s' =>
  if stop c then (EmptyString, s)
  else let '(a, b) := breakAt stop s' in (String c a, b)
end.

Fixpoint dropChars (n : nat) (s : string) : string :=
match n, s with
| O, _ => s
| S _, EmptyString => EmptyString
| S n', String _ s' => dropChars n' s'
end.

Definition isOneOf (cs : string) (c : ascii) : bool :=
existsb (Ascii.eqb c) (list_ascii_of_string cs).

Definition readFrom (scheme host rest : string) : URL :=
let '(path, rest1) := breakAt (isOneOf "?#") rest in
let '(query, fragment) := breakAt (isOneOf "#") rest1 in
let path' := if String.eqb path EmptyString then "/" else path in
let query' := if String.eqb query "?" then EmptyString else query in
let fragment' := if String.eqb fragment "#" then EmptyString else fragment in
mkURL (scheme +:+ "//" +:+ host +:+ path' +:+ query' +:+ fragment')
  scheme host EmptyString path' query' fragment'.

Definition readAbsolute (input : string) : option URL :=
let go (scheme : string) (n : nat) :=
  let '(host, rest) := breakAt (isOneOf "/?#") (dropChars n input) in
  if String.eqb host EmptyString then None
  else Some (readFrom scheme (JS.toLowerCase host) rest) in
if String.prefix "https://" input then go "https:" 8%nat
else if String.prefix "http://" input then go "http:" 7%nat
else None.

Definition readURL (input : string) (base : option string) : option URL :=
match readAbsolute input with
| Some u => Some u
| None =>
  match base with
  | None => None
  | Some b =>
    match readAbsolute b with
    | None => None
    | Some bu =>
      if String.prefix "/" input && negb (String.prefix "//" input)
      then Some (readFrom (protocol bu) (hostname bu) input)
      else None
    end
  end
end.

(** The constants of the runner. *)
Definition runnerStartUrl : string := "https://www.testdummy.ai/dashboard".
Definition runnerMaxUrlsToCrawl : nat := 10.
Definition runnerBaseUrlObj : URL :=
mkURL runnerStartUrl "https:" "www.testdummy.ai" EmptyString "/dashboard"
  EmptyString EmptyString.

End Frontier.

(** ** Predicates used to state the properties *)

(** The head of a list is below every member. *)
Definition headLeast {A : Type} (key : A -> Z) (l : list A) : Prop :=
match l with
| [] => True
| h :: _ => Forall (fun b => key h <= key b) l
end.

(** Both coordinates of the element are at most 2^24 = 16777216 pixels in
    magnitude. *)
Definition pixelBound : Z := 16777216.

Definition withinPixelBound (el : ElementInfo) : Prop :=
Z.abs (x (El.position el)) <= pixelBound /\
Z.abs (y (El.position el)) <= pixelBound.

(** [c] is a candidate nearest to [r] on the page: no candidate is strictly
    closer in Euclidean distance (the squares are compared). *)
Definition nearestTo (r c : ElementInfo) (candidates : list ElementInfo) : Prop :=
c ∈ candidates /\
forall c', c' ∈ candidates ->
  (x (El.position c) - x (El.position r)) ^ 2
  + (y (El.position c) - y (El.position r)) ^ 2
  <= (x (El.position c') - x (El.position r)) ^ 2
     + (y (El.position c') - y (El.position r)) ^ 2.

(** [c] is the candidate taken as nearest to [r]: a candidate whose
    computed distance to [r] is least, the first one in the list among
    those at that computed distance; it is a nearest candidate on the page
    when [r] and the candidates lie within the pixel bound. *)
Definition nearestComputed (r c : ElementInfo) (candidates : list ElementInfo)
  : Prop :=
c ∈ candidates /\
(forall c', c' ∈ candidates ->
   calculateDistance (El.position r) (El.position c)
   <= calculateDistance (El.position r) (El.position c')) /\
head (List.filter
        (fun c' => calculateDistance (El.position r) (El.position c')
                   =? calculateDistance (El.position r) (El.position c))
        candidates) = Some c /\
(Forall withinPixelBound (r :: candidates) -> nearestTo r c candidates).

(** What the detector pushes for the username candidate [u], given the
    password candidates [ps] and the submit candidates [ss]. *)
Definition loginEmission (url : string) (ps ss : list ElementInfo)
  (u : ElementInfo) (a : UserAction) : Prop :=
UA.type a = "login" /\ UA.url a = url /\
exists p, nearestComputed u p ps /\
  match ss with
  | [] => UA.confidence a = 7 # 10 /\ UA.elements a = [u; p]
  | _ :: _ =>
    UA.confidence a = 9 # 10 /\
    exists s, nearestComputed p s ss /\ UA.elements a = [u; p; s]
  end.

(** What pass 2 pushes for a group. *)
Definition rowEmission (url : string) (group : list ElementInfo)
  (a : UserAction) : Prop :=
UA.type a = "navigation" /\ UA.url a = url /\
UA.confidence a = 7 # 10 /\ UA.elements a = group.

(** An action with at least one element, all taken from [elements]. *)
Definition groundedIn (elements : list ElementInfo) (a : UserAction) : Prop :=
UA.elements a <> [] /\ forall e, e ∈ UA.elements a -> e ∈ elements.

(** [sub] occurs in [s] when letter case is ignored ([sub] is lower case). *)
Definition containsIgnoringCase (s sub : string) : Prop :=
exists pre post, JS.toLowerCase s = pre +:+ sub +:+ post.

(** The site of the crawl: the start URL itself, or a clean URL built from
    a link on the host of the base URL. *)
Definition onCrawlHost (startUrl : string) (baseUrlObj : Frontier.URL)
  (q : string) : Prop :=
q = startUrl \/
exists u, q = Frontier.cleanUrlOf u /\
          Frontier.hostname u = Frontier.hostname baseUrlObj.

(** The queue holds pairwise distinct URLs of the crawl's host. *)
Definition queueInv (startUrl : string) (baseUrlObj : Frontier.URL)
  (st : Frontier.State) : Prop :=
NoDup (Frontier.urlQueue st) /\
Forall (onCrawlHost startUrl baseUrlObj) (Frontier.urlQueue st).

(** The crawls started are pairwise distinct, they are exactly the URLs
    marked as crawled, and there are no more of them than the budget. *)
Definition visitInv (maxUrlsToCrawl : nat) (st : Frontier.State) : Prop :=
NoDup (Frontier.started st) /\
(forall u, u ∈ Frontier.started st <-> u ∈ Frontier.crawledUrls st) /\
length (Frontier.started st) = size (Frontier.crawledUrls st) /\
(length (Frontier.started st) <= maxUrlsToCrawl)%nat.

(** ** Sample pages *)

Definition sampleUrl : string := "https://www.testdummy.ai/dashboard".

(** A text input whose only hint is the placeholder "Login". *)
Definition loginPlaceholderInput : ElementInfo :=
extracted "/html/body/input[1]" "input"
  {[ "type" := "text"; "placeholder" := "Login" ]} EmptyString true 40 40.

(** A text input labelled "User" through [aria-label] only. *)
Definition userLabelInput : ElementInfo :=
extracted "/html/body/input[2]" "input"
  {[ "type" := "text"; "aria-label" := "User" ]} EmptyString true 40 80.

(** Four [a] elements without [href], 5px apart vertically. *)
Definition bareAnchor (xpath text : string) (py : Z) : ElementInfo :=
extracted xpath "a" ∅ text true 20 py.

Definition bareAnchorsPage : CrawlResult :=
CR.mk sampleUrl
  [bareAnchor "/html/body/a[1]" "Home" 100;
   bareAnchor "/html/body/a[2]" "Products" 105;
   bareAnchor "/html/body/a[3]" "Pricing" 110;
   bareAnchor "/html/body/a[4]" "About" 115] 0.

(** The same four anchors, each with an [href]. *)
Definition linkAnchor (xpath target text : string) (py : Z) : ElementInfo :=
extracted xpath "a" {[ "href" := target ]} text true 20 py.

Definition rowLinks : list ElementInfo :=
[linkAnchor "/html/body/a[1]" "/" "Home" 100;
 linkAnchor "/html/body/a[2]" "/products" "Products" 105;
 linkAnchor "/html/body/a[3]" "/pricing" "Pricing" 110;
 linkAnchor "/html/body/a[4]" "/about" "About" 115].

Definition linkRowPage : CrawlResult := CR.mk sampleUrl rowLinks 0.

(** A sign-up form: name, email and password inputs and a "Sign Up"
    button inside a [form]. *)
Definition signupForm : ElementInfo :=
extracted "/html/body/form[1]" "form" {[ "action" := "/register" ]}
  "Sign Up" false 50 50.
Definition signupName : ElementInfo :=
extracted "/html/body/form[1]/input[1]" "input"
  {[ "type" := "text"; "name" := "fullname" ]} EmptyString true 60 60.
Definition signupEmail : ElementInfo :=
extracted "/html/body/form[1]/input[2]" "input"
  {[ "type" := "email"; "id" := "email" ]} EmptyString true 60 100.
Definition signupPassword : ElementInfo :=
extracted "/html/body/form[1]/input[3]" "input"
  {[ "type" := "password"; "id" := "pw" ]} EmptyString true 60 140.
Definition signupButton : ElementInfo :=
extracted "/html/body/form[1]/button[1]" "button" ∅ "Sign Up" true 60 180.

Definition signupPage : CrawlResult :=
CR.mk sampleUrl
  [signupForm; signupName; signupEmail; signupPassword; signupButton] 0.

(** A page whose only search candidate is one input with the placeholder
    "Search". *)
Definition searchBox : ElementInfo :=
extracted "/html/body/header/input[1]" "input"
  {[ "type" := "text"; "placeholder" := "Search" ]} EmptyString true 300 10.

Definition searchPage : CrawlResult :=
CR.mk sampleUrl [linkAnchor "/html/body/a[1]" "/" "Home" 100; searchBox] 0.

(** A login page: email and password inputs and a "Log in" button. *)
Definition loginEmail : ElementInfo :=
extracted "/html/body/form[1]/input[1]" "input"
  {[ "type" := "email"; "name" := "email" ]} EmptyString true 100 100.
Definition loginPassword : ElementInfo :=
extracted "/html/body/form[1]/input[2]" "input"
  {[ "type" := "password"; "name" := "password" ]} EmptyString true 100 140.
Definition loginButton : ElementInfo :=
extracted "/html/body/form[1]/button[1]" "button" ∅ "Log in" true 100 180.

Definition loginPage : CrawlResult :=
CR.mk sampleUrl [loginEmail; loginPassword; loginButton] 0.

Definition loginPageNoSubmit : CrawlResult :=
CR.mk sampleUrl [loginEmail; loginPassword] 0.

(** A login page 100 000 000 pixels wide: the username input at the
    origin, two password inputs at the far end, the second of them one
    pixel nearer to the username input than the first. *)
Definition widePageUsername : ElementInfo :=
extracted "/html/body/form[1]/input[1]" "input"
  {[ "type" := "text"; "name" := "username" ]} EmptyString true 0 0.
Definition widePagePassword : ElementInfo :=
extracted "/html/body/form[1]/input[2]" "input"
  {[ "type" := "password"; "name" := "password" ]} EmptyString true
  100000000 1.
Definition widePagePasswordLevel : ElementInfo :=
extracted "/html/body/form[1]/input[3]" "input"
  {[ "type" := "password"; "name" := "confirm" ]} EmptyString true
  100000000 0.

Definition widePage : CrawlResult :=
CR.mk sampleUrl [widePageUsername; widePagePassword; widePagePasswordLevel] 0.

(** The links of a sample dashboard page. *)
Definition samplePage (url : string) : option (list string) :=
Some ["/reports"; "/reports?tab=2"; "/settings#profile";
      "https://elsewhere.example/"; "/logout"; "/Login"].

(** The four links of [rowLinks] after a link 15px above the first of
    them. *)
Definition rowAfterEarlierLink : CrawlResult :=
CR.mk sampleUrl
  [linkAnchor "/html/body/a[1]" "/top" "Top" 95;
   linkAnchor "/html/body/a[2]" "/" "Home" 110;
   linkAnchor "/html/body/a[3]" "/products" "Products" 112;
   linkAnchor "/html/body/a[4]" "/pricing" "Pricing" 114;
   linkAnchor "/html/body/a[5]" "/about" "About" 125] 0.

(** ** The LLM-backed classifier ([LLMActionAnalyzer.analyzeActions])

    The completion call is outside the analyzer: its outcome is a parameter,
    [Some actions] for a parsed response and [None] when the call throws.
    Element indices are integers. *)

Module LLM.

(** One item of [response.actions]. *)
Record RawAction := mkRawAction {
  type : string;
  name : string;
  description : string;
  elementIndices : list Z;
  confidence : Q
}.

(** [elements[index]]: [undefined] outside the array. *)
Definition elementAt (elements : list ElementInfo) (index : Z)
  : option ElementInfo :=
if index <? 0 then None else elements !! Z.to_nat index.

(** The body of [response.actions.map(...)]:
    [elementIndices.map(index => elements[index]).filter(Boolean)]. *)
Definition toUserAction (crawlResult : CrawlResult) (action : RawAction)
  : UserAction :=
UA.mk (type action) (name action) (description action)
  (omap (elementAt (CR.elements crawlResult)) (elementIndices action))
  (CR.url crawlResult) (confidence action).

Definition analyzeActions {Log : Type} (logger : LogLine -> Log -> Log)
  (crawlResult : CrawlResult) (response : option (list RawAction)) (log : Log)
  : list UserAction * Log :=
let log1 :=
  logger (mkLogLine "llm-action-analyzer"
            ("Analyzing " +:+ pretty (length (CR.elements crawlResult))
             +:+ " elements for user actions using LLM") 1) log in
match response with
| Some actions =>
  let userActions := map (toUserAction crawlResult) actions in
  (userActions,
   logger (mkLogLine "llm-action-analyzer"
             ("LLM identified " +:+ pretty (length userActions)
              +:+ " potential user actions") 1) log1)
| None =>
  ([], logger (mkLogLine "llm-action-analyzer"
                 "Error analyzing actions with LLM" 1) log1)
end.

End LLM.

(** ** File names of saved results ([saveResults] in [index.ts]) *)

Module Save.

Definition isAlnum (c : ascii) : bool :=
let n := nat_of_ascii c in
(((48 <=? n) && (n <=? 57)) || ((65 <=? n) && (n <=? 90)) ||
 ((97 <=? n) && (n <=? 122)))%nat.

Definition underscore : ascii := ascii_of_nat 95.
Definition dash : ascii := ascii_of_nat 45.

(** [s.replace(/[^a-z0-9]/gi, '_')] *)
Fixpoint sanitize (s : string) : string :=
match s with
| EmptyString => EmptyString
| String c s' => String (if isAlnum c then c else underscore) (sanitize s')
end.

(** [s.replace(/[:.]/g, '-')] *)
Fixpoint dashed (s : string) : string :=
match s with
| EmptyString => EmptyString
| String c s' =>
  String (if (nat_of_ascii c =? 58)%nat || (nat_of_ascii c =? 46)%nat
          then dash else c) (dashed s')
end.

(** The two file names, from the parsed URL of the crawl result and the
    ISO string of the current date. *)
Definition crawlFilename (urlObj : Frontier.URL) (iso : string) : string :=
sanitize (Frontier.hostname urlObj) +:+ sanitize (Frontier.pathname urlObj)
+:+ "_crawl_" +:+ dashed iso +:+ ".json".

Definition actionsFilename (urlObj : Frontier.URL) (iso : string) : string :=
sanitize (Frontier.hostname urlObj) +:+ sanitize (Frontier.pathname urlObj)
+:+ "_actions_" +:+ dashed iso +:+ ".json".

(** The names of the files [saveResults] writes into the output directory,
    in order: the actions file only for a non-empty list of actions. *)
Definition savedFiles (urlObj : Frontier.URL) (iso : string)
  (userActions : option (list UserAction)) : list string :=
crawlFilename urlObj iso ::
match userActions with
| Some (_ :: _) => [actionsFilename urlObj iso]
| _ => []
end.

End Save.

(** ** The in-memory vector store of the runner ([InMemoryVectorDB])

    A [Map] keeps its entries in insertion order; [set] on a present key
    replaces the value in place.  [Math.random()] is a parameter: the score
    of the [i]-th result. *)

Module VectorDB.
Section Store.
Context {V M : Type}.

Definition Vectors : Type := list (string * (V * M)).

(** [vectors.set(id, value)] *)
Fixpoint set (id : string) (value : V * M) (vectors : Vectors) : Vectors :=
match vectors with
| [] => [(id, value)]
| (k, v) :: rest =>
  if String.eqb k id then (k, value) :: rest else (k, v) :: set id value rest
end.

(** [vectors.get(id)] *)
Fixpoint get (id : string) (vectors : Vectors) : option (V * M) :=
match vectors with
| [] => None
| (k, v) :: rest => if String.eqb k id then Some v else get id rest
end.

Definition storeVector (id : string) (vector : V) (metadata : M)
  (vectors : Vectors) : Vectors :=
set id (vector, metadata) vectors.

(** [array.slice(0, end)] *)
Definition slice0 {A : Type} (end_ : Z) (l : list A) : list A :=
if end_ <? 0
then take (Z.to_nat (Z.max 0 (Z.of_nat (length l) + end_))) l
else take (Z.to_nat end_) l.

(** [searchSimilar(vector, limit = 10)]: id, score and metadata of the
    first entries; the query vector is not looked at. *)
Definition searchSimilar (random : nat -> Q) (vector : V) (limit : option Z)
  (vectors : Vectors) : list (string * Q * M) :=
imap (fun i entry => (entry.1, random i, entry.2.2))
  (slice0 (default 10 limit) vectors).

End Store.
End VectorDB.

(** ** Further predicates used to state properties *)

(** What the search detector pushes for the search input [i], given the
    search buttons [bs]. *)
Definition searchEmission (url : string) (bs : list ElementInfo)
  (i : ElementInfo) (a : UserAction) : Prop :=
UA.type a = "search" /\ UA.url a = url /\
match bs with
| [] => UA.confidence a = 7 # 10 /\ UA.elements a = [i]
| _ :: _ =>
  UA.confidence a = 9 # 10 /\
  exists b, nearestComputed i b bs /\ UA.elements a = [i; b]
end.

(** A navigation container with at least three links in its box. *)
Definition isMenuContainer (links : list ElementInfo) (navElement : ElementInfo)
  : bool :=
(3 <=? length (List.filter (insideBox 100 1000 navElement) links))%nat.

(** What pass 1 of the navigation detector pushes for a container. *)
Definition containerEmission (url : string) (links : list ElementInfo)
  (navElement : ElementInfo) (a : UserAction) : Prop :=
UA.type a = "navigation" /\ UA.url a = url /\
UA.confidence a = 8 # 10 /\
UA.elements a = navElement :: List.filter (insideBox 100 1000 navElement) links.



(** The kinds of action the rule-based classifier knows. *)
Definition knownKinds : list (string * string) :=
[("login", "Login"); ("search", "Search"); ("navigation", "Navigation Menu");
 ("registration", "Registration Form"); ("contact", "Contact Form");
 ("form", "Form")].

(** The attributes [generateDescription] quotes. *)
Definition notableAttributes : list string :=
["id"; "name"; "placeholder"; "aria-label"; "role"].

(** The [parts] array of [generateDescription], before it is joined. *)
Definition descriptionParts (type : string) (attributes : gmap string string)
  (text : string) : list string :=
[type]
++ (if JS.truthy (attributes !! "id")
    then ["with id " +:+ JS.dquote +:+
          default EmptyString (attributes !! "id") +:+ JS.dquote]
    else [])
++ (if JS.truthy (attributes !! "name")
    then ["named " +:+ JS.dquote +:+
          default EmptyString (attributes !! "name") +:+ JS.dquote]
    else [])
++ (if JS.truthy (attributes !! "placeholder")
    then ["with placeholder " +:+ JS.dquote +:+
          default EmptyString (attributes !! "placeholder") +:+ JS.dquote]
    else [])
++ (if JS.truthy (attributes !! "aria-label")
    then ["labeled " +:+ JS.dquote +:+
          default EmptyString (attributes !! "aria-label") +:+ JS.dquote]
    else [])
++ (if JS.truthy (attributes !! "role")
    then ["with role " +:+ JS.dquote +:+
          default EmptyString (attributes !! "role") +:+ JS.dquote]
    else [])
++ (if JS.truthy (Some text)
    then ["containing " +:+ JS.dquote +:+
          (JS.substring0 50 text +:+
           (if (50 <? String.length text)%nat
            then "..." else EmptyString)) +:+ JS.dquote]
    else []).

(** An element as [parseOutputString] builds it: its description is
    generated from its own type, attributes and text. *)
Definition describedByCrawler (el : ElementInfo) : Prop :=
El.description el =
generateDescription (El.type el) (El.attributes el) (El.text el).

(** Queue entries are not crawled yet. *)
Definition pendingInv (st : Frontier.State) : Prop :=
forall u, u ∈ Frontier.urlQueue st -> u ∉ Frontier.crawledUrls st.

(** Apart from the start URL, no queued or started URL is a session page. *)
Definition sessionFreeInv (startUrl : string) (st : Frontier.State) : Prop :=
Forall (fun q => q = startUrl \/ Frontier.isSessionPage q = false)
  (Frontier.started st ++ Frontier.urlQueue st).

(** The URLs seen so far, in the order they entered the queue. *)
Definition discovered (st : Frontier.State) : list string :=
Frontier.started st ++ Frontier.urlQueue st.

(** The characters of [toISOString()] for a four-digit year. *)
Definition isIsoChar (c : ascii) : bool :=
existsb (Ascii.eqb c) (list_ascii_of_string "0123456789-T:.Z").

(** Characters that are safe in a file name: letters, digits, [_], [-]
    and [.]. *)
Definition isFileChar (c : ascii) : bool :=
Save.isAlnum c || existsb (Ascii.eqb c) (list_ascii_of_string "_-.").

(** ** Crawling a URL and a list of URLs ([crawlUrl], [crawlUrls] in
    [index.ts], [PageCrawler.crawlPage])

    What the browser yields for a URL is a parameter: the extracted
    elements, or the message of the error thrown.  So are the clock and the
    platform's [URL] class.  The logger is always given; log lines are
    recorded by category, message and level.  The file system accepts every
    write; a written file is recorded as directory and name. *)

(** The [options] of [crawlUrl], without the logger. *)
Module CrawlOptions.
Record t := mk {
  outputDir : option string;
  analyzeActions : option bool;
  useLLM : option bool;
  llmClient : option (CrawlResult -> option (list LLM.RawAction))
}.
End CrawlOptions.

Module Crawler.

Abbreviation Options := CrawlOptions.t.

(** [{ crawlResult, userActions }] *)
Record Outcome := mkOutcome {
  crawlResult : CrawlResult;
  userActions : option (list UserAction)
}.

Section Run.
Context {Log : Type} (logger : LogLine -> Log -> Log).
Variable extract : string -> list ElementInfo + string.
Variable now : Z.
Variable iso : string.
Variable newURL : string -> Frontier.URL + string.

(** The log and the files written so far. *)
Definition World : Type := Log * list (string * string).

(** [PageCrawler.crawlPage] *)
Definition crawlPage (url : string) (log : Log) : (CrawlResult + string) * Log :=
let log1 := logger (mkLogLine "crawler" ("Starting crawl of " +:+ url) 1) log in
match extract url with
| inl elements => (inl (CR.mk url elements now), log1)
| inr message => (inr message, log1)
end.

(** [saveResults] *)
Definition saveResults (crawlResult : CrawlResult)
  (userActions : option (list UserAction)) (outputDir : string)
  (files : list (string * string)) : (unit + string) * list (string * string) :=
match newURL (CR.url crawlResult) with
| inr message => (inr message, files)
| inl urlObj =>
  (inl tt, files ++ map (pair outputDir) (Save.savedFiles urlObj iso userActions))
end.

(** [options.analyzeActions !== false] *)
Definition wantsActions (options : Options) : bool :=
match CrawlOptions.analyzeActions options with
| Some false => false
| _ => true
end.

Definition crawlUrl (url : string) (options : Options) (w : World)
  : (Outcome + string) * World :=
let '(log, files) := w in
let log1 := logger (mkLogLine "crawler" ("Starting crawl of " +:+ url) 1) log in
match crawlPage url log1 with
| (inr message, log2) => (inr message, (log2, files))
| (inl crawlResult, log2) =>
  let '(userActions, log3) :=
    if wantsActions options then
      let '(actions, log') :=
        match CrawlOptions.useLLM options, CrawlOptions.llmClient options with
        | Some true, Some client =>
          LLM.analyzeActions logger crawlResult (client crawlResult) log2
        | _, _ => analyzeActions logger crawlResult log2
        end in
      (Some actions,
       logger (mkLogLine "crawler"
                 ("Identified " +:+ pretty (length actions) +:+ " user actions")
                 1) log')
    else (None, log2) in
  if JS.truthy (CrawlOptions.outputDir options) then
    let dir := default EmptyString (CrawlOptions.outputDir options) in
    match saveResults crawlResult userActions dir files with
    | (inr message, files') => (inr message, (log3, files'))
    | (inl _, files') =>
      (inl (mkOutcome crawlResult userActions),
       (logger (mkLogLine "crawler" ("Saved crawl results to " +:+ dir) 1) log3,
        files'))
    end
  else (inl (mkOutcome crawlResult userActions), (log3, files))
end.

Fixpoint crawlUrls (urls : list string) (options : Options) (w : World)
  : list Outcome * World :=
match urls with
| [] => ([], w)
| url :: rest =>
  match crawlUrl url options w with
  | (inl result, w') =>
    let '(results, w'') := crawlUrls rest options w' in (result :: results, w'')
  | (inr message, (log, files)) =>
    crawlUrls rest options
      (logger (mkLogLine "crawler"
                 ("Error crawling " +:+ url +:+ ": " +:+ message) 1) log,
       files)
  end
end.

End Run.
End Crawler.

(** An outcome of crawling [url]: the crawl result is for [url], and the
    actions, when there are any, carry [url] and are made of elements of
    the crawl result. *)
Definition outcomeFor (url : string) (r : Crawler.Outcome) : Prop :=
CR.url (Crawler.crawlResult r) = url /\
match Crawler.userActions r with
| None => True
| Some actions =>
  Forall (fun a =>
            UA.url a = url /\
            forall e, e ∈ UA.elements a ->
                      e ∈ CR.elements (Crawler.crawlResult r))
    actions
end.

(** Sample browser: two pages load, one does not. *)
Definition sampleExtract (url : string) : list ElementInfo + string :=
if String.eqb url "https://www.testdummy.ai/login"
then inl (CR.elements loginPage)
else if String.eqb url "https://www.testdummy.ai/signup"
then inl (CR.elements signupPage)
else inr "net::ERR_NAME_NOT_RESOLVED".

Definition sampleNewURL (input : string) : Frontier.URL + string :=
match Frontier.readURL input None with
| Some u => inl u
| None => inr "Invalid URL"
end.

(** * Properties *)

Set Default Proof Using "Type".

(** ** Strings *)

Lemma append_nil_l (s : string) : EmptyString +:+ s = s.
Proof. reflexivity. Qed.

Lemma append_cons_l (c : ascii) (s t : string) :
  String c s +:+ t = String c (s +:+ t).
Proof. reflexivity. Qed.

Lemma prefix_spec (sub s : string) :
  String.prefix sub s = true <-> exists post, s = sub +:+ post.
Proof.
  revert s. induction sub as [|c sub IH]; intros s.
  - split; [intros _; exists s; reflexivity | intros _; now destruct s].
  - setoid_rewrite append_cons_l. destruct s as [|d s]; simpl.
    + split; [discriminate | intros [post H]; discriminate].
    + destruct (ascii_dec c d) as [->|Hne].
      * rewrite IH. split; intros [post H]; exists post; congruence.
      * split; [discriminate | intros [post H]; congruence].
Qed.

(** [includes] finds [sub] exactly when [s] splits around it. *)
Lemma includes_spec (s sub : string) :
  JS.includes s sub = true <-> exists pre post, s = pre +:+ sub +:+ post.
Proof.
  induction s as [|c s IH].
  - destruct sub as [|d sub]; simpl; split; try discriminate.
    + intros _. exists EmptyString, EmptyString. reflexivity.
    + reflexivity.
    + intros [pre [post H]]. destruct pre; discriminate.
  - cbn [JS.includes]. rewrite orb_true_iff, prefix_spec, IH. split.
    + intros [[post H] | [pre [post H]]].
      * exists EmptyString, post. exact H.
      * exists (String c pre), post. rewrite append_cons_l. congruence.
    + intros [pre [post H]]. destruct pre as [|d pre].
      * left. eauto.
      * right. exists pre, post. rewrite append_cons_l in H. congruence.
Qed.

(** ** Lists *)

Lemma elem_of_List_filter {A} (f : A -> bool) (l : list A) (a : A) :
  a ∈ List.filter f l <-> a ∈ l /\ f a = true.
Proof. rewrite !list_elem_of_In. apply filter_In. Qed.

Lemma List_filter_nil_iff {A} (f : A -> bool) (l : list A) :
  List.filter f l = [] <-> forall a, a ∈ l -> f a = false.
Proof.
  induction l as [|b l IH]; simpl.
  - split; [intros _ a Ha; inversion Ha | reflexivity].
  - destruct (f b) eqn:Hb.
    + split; [discriminate |].
      intros H. specialize (H b (list_elem_of_here _ _)). congruence.
    + rewrite IH. split.
      * intros H a Ha. apply elem_of_cons in Ha as [-> | Ha]; auto.
      * intros H a Ha. apply H. now apply list_elem_of_further.
Qed.

Lemma length_pos_iff {A} (l : list A) : (0 <? length l)%nat = true <-> l <> [].
Proof.
  destruct l; simpl; split; try congruence; try discriminate; reflexivity.
Qed.

(** ** The stable sort behind [findNearbyElements] *)

Section StableSortFacts.
Context {A : Type} (key : A -> Z).

Lemma insertByKey_perm (a : A) (l : list A) :
  insertByKey key a l ≡ₚ a :: l.
Proof.
  induction l as [|b l IH]; simpl; [reflexivity |].
  destruct (key a <=? key b); [reflexivity |].
  rewrite IH. apply perm_swap.
Qed.

Lemma sortByKey_perm (l : list A) : sortByKey key l ≡ₚ l.
Proof.
  induction l as [|a l IH]; simpl; [reflexivity |].
  rewrite insertByKey_perm. now rewrite IH.
Qed.

Lemma sortByKey_length (l : list A) : length (sortByKey key l) = length l.
Proof. now rewrite sortByKey_perm. Qed.

Lemma insertByKey_headLeast (a : A) (l : list A) :
  headLeast key l -> headLeast key (insertByKey key a l).
Proof.
  destruct l as [|b l]; simpl.
  - intros _. constructor; [lia | constructor].
  - intros Hb. destruct (Z.leb_spec (key a) (key b)) as [Hab | Hab]; simpl.
    + constructor; [lia |].
      eapply Forall_impl; [exact Hb |]. simpl. intros c Hc. lia.
    + inversion Hb as [|? ? Hbb Hl]; subst.
      constructor; [lia |]. rewrite insertByKey_perm.
      constructor; [lia | exact Hl].
Qed.

Lemma sortByKey_headLeast (l : list A) : headLeast key (sortByKey key l).
Proof.
  induction l as [|a l IH]; simpl; [exact I |].
  now apply insertByKey_headLeast.
Qed.

Lemma sortByKey_nil_iff (l : list A) : sortByKey key l = [] <-> l = [].
Proof.
  split; [| intros ->; reflexivity].
  intros H. apply (f_equal length) in H. rewrite sortByKey_length in H.
  now destruct l.
Qed.

(** Inserting goes past strictly smaller keys only, so members with equal
    keys keep their order. *)
Lemma insertByKey_stable (k : Z) (a : A) (l : list A) :
  List.filter (fun c => key c =? k) (insertByKey key a l) =
  List.filter (fun c => key c =? k) (a :: l).
Proof.
  induction l as [|b l IH]; [reflexivity |].
  cbn [insertByKey]. destruct (Z.leb_spec (key a) (key b)) as [Hab | Hab];
    [reflexivity |].
  cbn [List.filter] in *. rewrite IH.
  destruct (Z.eqb_spec (key a) k) as [Ha | Ha]; [| reflexivity].
  destruct (Z.eqb_spec (key b) k) as [Hb | Hb]; [lia | reflexivity].
Qed.

Lemma sortByKey_stable (k : Z) (l : list A) :
  List.filter (fun c => key c =? k) (sortByKey key l) =
  List.filter (fun c => key c =? k) l.
Proof.
  induction l as [|a l IH]; [reflexivity |].
  cbn [sortByKey fold_right]. rewrite insertByKey_stable.
  cbn [List.filter]. fold (sortByKey key l). now rewrite IH.
Qed.

(** The first element of the sorted copy is a member with the least key,
    and the first member of the list with that key. *)
Lemma sortByKey_head (l : list A) (h : A) (t : list A) :
  sortByKey key l = h :: t ->
  h ∈ l /\ (forall b, b ∈ l -> key h <= key b) /\
  head (List.filter (fun b => key b =? key h) l) = Some h.
Proof.
  intros H. split; [| split].
  - rewrite <- (sortByKey_perm l), H. apply list_elem_of_here.
  - intros b Hb. pose proof (sortByKey_headLeast l) as Hl.
    rewrite H in Hl. simpl in Hl. rewrite Forall_forall in Hl.
    apply Hl. rewrite <- H, sortByKey_perm. exact Hb.
  - rewrite <- sortByKey_stable, H. cbn [List.filter].
    now rewrite Z.eqb_refl.
Qed.

End StableSortFacts.

(** ** Double-precision distances *)

Lemma roundInteger_small (n : Z) : n < 2 ^ 53 -> Double.roundInteger n = n.
Proof.
  intros H. unfold Double.roundInteger.
  destruct (Z.ltb_spec n (2 ^ 53)); [reflexivity | lia].
Qed.

(** Integers below 2^53 are doubles. *)
Lemma round_small (n : Z) : n < 2 ^ 53 -> Double.round n = Some n.
Proof.
  intros H. unfold Double.round. rewrite roundInteger_small by exact H.
  destruct (Z.ltb_spec n (2 ^ 1024)) as [_ | Hge]; [reflexivity |].
  assert (2 ^ 53 < 2 ^ 1024) by (apply Z.pow_lt_mono_r; lia). lia.
Qed.

(** The rounded root is within half a unit in the last place of the root:
    with [P] the power of two just below [sqrt n] and [K] twice the result,
    [K - P < 2^53 * sqrt n < K + P], stated on the squares. *)
Lemma sqrtScaled_spec (n : Z) :
  0 < n -> n < 2 ^ 104 ->
  let P := 2 ^ Z.log2 (Z.sqrt n) in
  let K := 2 * Double.sqrtScaled n in
  0 < P /\ P * P <= n /\ P <= K /\
  (K - P) * (K - P) < n * 2 ^ 106 /\ n * 2 ^ 106 < (K + P) * (K + P).
Proof.
  intros Hn Hn' P K.
  assert (Hs : 0 < Z.sqrt n) by (apply Z.sqrt_pos; lia).
  pose proof (Z.sqrt_spec n ltac:(lia)) as [Hs1 Hs2].
  pose proof (Z.log2_spec (Z.sqrt n) Hs) as [Hl1 Hl2].
  pose proof (Z.log2_nonneg (Z.sqrt n)) as He0.
  set (e := Z.log2 (Z.sqrt n)) in *.
  assert (He : e < 52).
  { apply Z.log2_lt_pow2; [exact Hs |].
    apply Z.sqrt_lt_square; [lia | lia |].
    change (2 ^ 52 * 2 ^ 52) with (2 ^ 104). exact Hn'. }
  assert (HP : 0 < P) by (apply Z.pow_pos_nonneg; lia).
  assert (HPn : P * P <= n).
  { transitivity (Z.sqrt n * Z.sqrt n); [| lia].
    apply Z.mul_le_mono_nonneg; lia. }
  subst K. unfold Double.sqrtScaled.
  destruct (Z.leb_spec n 0) as [? | _]; [lia |]. fold e.
  set (t := 2 * (52 - e)).
  assert (Ht : 0 < t) by lia.
  rewrite Z.shiftr_shiftl_l by lia.
  rewrite Z.sub_diag, Z.shiftl_0_r, Z.eqb_refl.
  cbn [negb]. rewrite andb_false_r, orb_false_r.
  rewrite !Z.shiftl_mul_pow2 by lia. fold P.
  set (N := n * 2 ^ t).
  set (Q := 2 ^ (52 - e)).
  assert (HQ : 0 < Q) by (apply Z.pow_pos_nonneg; lia).
  assert (HN : N = n * (Q * Q)).
  { unfold N, Q, t. rewrite <- Z.pow_add_r by lia. f_equal. f_equal. lia. }
  assert (HPQ : P * Q = 2 ^ 52).
  { unfold P, Q. rewrite <- Z.pow_add_r by lia. f_equal. lia. }
  assert (HN0 : 0 < N) by (rewrite HN; nia).
  pose proof (Z.sqrt_spec N ltac:(lia)) as [Hk1 Hk2].
  assert (Hk0 : 0 < Z.sqrt N) by (apply Z.sqrt_pos; lia).
  set (k := Z.sqrt N) in *.
  set (m := if k * k + k <? N then k + 1 else k).
  assert (Hm : 0 < m /\ m * m - m < N /\ N <= m * m + m).
  { unfold m. destruct (Z.ltb_spec (k * k + k) N); nia. }
  destruct Hm as [Hm0 [Hm1 Hm2]].
  assert (HA : n * 2 ^ 106 = 4 * N * (P * P)).
  { rewrite HN.
    replace (4 * (n * (Q * Q)) * (P * P))
      with (n * (4 * ((P * Q) * (P * Q)))) by ring.
    rewrite HPQ. reflexivity. }
  split; [exact HP |]. split; [exact HPn |].
  split; [nia |].
  rewrite HA.
  replace ((2 * (m * P) - P) * (2 * (m * P) - P))
    with ((4 * (m * m - m) + 1) * (P * P)) by ring.
  replace ((2 * (m * P) + P) * (2 * (m * P) + P))
    with ((4 * (m * m + m) + 1) * (P * P)) by ring.
  assert (HPP : 0 < P * P) by nia.
  split; apply Z.mul_lt_mono_pos_r; try exact HPP; lia.
Qed.

Lemma log2_sqrt_bound (n : Z) :
  0 < n -> n <= 2 ^ 51 -> 2 ^ Z.log2 (Z.sqrt n) <= 2 ^ 25.
Proof.
  intros Hn Hb. apply Z.pow_le_mono_r; [lia |].
  assert (Hs : 0 < Z.sqrt n) by (apply Z.sqrt_pos; lia).
  apply Z.lt_succ_r. apply Z.log2_lt_pow2; [exact Hs |].
  apply Z.sqrt_lt_square; lia.
Qed.

(** Up to 2^51 the roots of two different integers are more than a unit in
    the last place apart, so rounding keeps them apart. *)
Lemma sqrtScaled_lt (n n' : Z) :
  0 <= n -> n < n' -> n' <= 2 ^ 51 ->
  Double.sqrtScaled n < Double.sqrtScaled n'.
Proof.
  intros Hn Hlt Hb.
  assert (H51 : 2 ^ 51 < 2 ^ 104) by (apply Z.pow_lt_mono_r; lia).
  destruct (sqrtScaled_spec n' ltac:(lia) ltac:(lia))
    as [HP' [_ [HK' [_ Hup']]]].
  pose proof (log2_sqrt_bound n' ltac:(lia) Hb) as HP'b.
  set (P' := 2 ^ Z.log2 (Z.sqrt n')) in *.
  set (k' := Double.sqrtScaled n') in *.
  destruct (Z.eq_dec n 0) as [-> | Hn0]; [change (Double.sqrtScaled 0) with 0; lia |].
  destruct (sqrtScaled_spec n ltac:(lia) ltac:(lia))
    as [HP [_ [HK [Hlo _]]]].
  pose proof (log2_sqrt_bound n ltac:(lia) ltac:(lia)) as HPb.
  set (P := 2 ^ Z.log2 (Z.sqrt n)) in *.
  set (k := Double.sqrtScaled n) in *.
  destruct (Z.lt_ge_cases k k') as [? | Hge]; [assumption | exfalso].
  change (2 ^ 25) with 33554432 in *.
  change (2 ^ 51) with 2251799813685248 in *.
  change (2 ^ 106) with 81129638414606681695789005144064 in *.
  assert (Hd : 2 * k - P < 453347182355485940514816).
  { destruct (Z.lt_ge_cases (2 * k - P) 453347182355485940514816)
      as [? | Hbig]; [assumption | exfalso].
    assert (453347182355485940514816 * 453347182355485940514816
            <= (2 * k - P) * (2 * k - P))
      by (apply Z.mul_le_mono_nonneg; lia).
    nia. }
  assert (Hsq : (2 * k' + P') * (2 * k' + P') <= (2 * k + P') * (2 * k + P'))
    by (apply Z.mul_le_mono_nonneg; lia).
  assert (Hdiff : (2 * k + P') * (2 * k + P') - (2 * k - P) * (2 * k - P)
                  = (P + P') * (4 * k + P' - P)) by ring.
  assert (Hprod : (P + P') * (4 * k + P' - P)
                  <= 67108864 * (4 * k + P' - P))
    by (apply Z.mul_le_mono_nonneg_r; lia).
  lia.
Qed.

(** Every finite root is below [Infinity]. *)
Lemma sqrtScaled_finite (n : Z) :
  n < 2 ^ 1024 -> Double.sqrtScaled n < Double.infinity.
Proof.
  intros Hb. unfold Double.sqrtScaled, Double.infinity.
  destruct (Z.leb_spec n 0) as [? | Hn]; [apply Z.pow_pos_nonneg; lia |].
  assert (Hs : 0 < Z.sqrt n) by (apply Z.sqrt_pos; lia).
  pose proof (Z.sqrt_spec n ltac:(lia)) as [Hs1 Hs2].
  pose proof (Z.log2_spec (Z.sqrt n) Hs) as [Hl1 Hl2].
  pose proof (Z.log2_nonneg (Z.sqrt n)) as He0.
  set (e := Z.log2 (Z.sqrt n)) in *.
  assert (He : e < 512).
  { apply Z.log2_lt_pow2; [exact Hs |].
    apply Z.sqrt_lt_square; [lia | apply Z.pow_nonneg; lia |].
    rewrite <- Z.pow_add_r by lia. exact Hb. }
  set (t := 2 * (52 - e)).
  set (N := Z.shiftl n t).
  assert (HN : 0 <= N < 2 ^ 106).
  { split; [apply Z.shiftl_nonneg; lia |].
    assert (Hn4 : n < 2 ^ (2 * (e + 1))).
    { replace (2 * (e + 1)) with (Z.succ e + Z.succ e) by lia.
      rewrite Z.pow_add_r by lia.
      apply Z.lt_le_trans with (Z.succ (Z.sqrt n) * Z.succ (Z.sqrt n));
        [lia |].
      apply Z.mul_le_mono_nonneg; lia. }
    unfold N. destruct (Z.le_gt_cases 0 t) as [Ht | Ht].
    - rewrite Z.shiftl_mul_pow2 by lia.
      replace 106 with (2 * (e + 1) + t) by lia.
      rewrite Z.pow_add_r by lia.
      apply Z.mul_lt_mono_pos_r; [apply Z.pow_pos_nonneg; lia | exact Hn4].
    - rewrite Z.shiftl_div_pow2 by lia.
      apply Z.div_lt_upper_bound; [apply Z.pow_pos_nonneg; lia |].
      rewrite <- Z.pow_add_r by lia.
      replace (- t + 106) with (2 * (e + 1)) by lia. exact Hn4. }
  assert (Hk : 0 <= Z.sqrt N < 2 ^ 53).
  { split; [apply Z.sqrt_nonneg |].
    apply Z.sqrt_lt_square; [lia | apply Z.pow_nonneg; lia |].
    rewrite <- Z.pow_add_r by lia. apply HN. }
  set (k := Z.sqrt N) in *.
  set (up := (k * k + k <? N)
             || ((k * k + k =? N) && negb (Z.shiftr N t =? n))).
  set (m := if up then k + 1 else k).
  assert (Hm : 0 <= m <= 2 ^ 53) by (unfold m; destruct up; lia).
  rewrite Z.shiftl_mul_pow2 by lia.
  apply Z.le_lt_trans with (2 ^ 53 * 2 ^ e).
  - apply Z.mul_le_mono_nonneg_r; [apply Z.pow_nonneg; lia | lia].
  - rewrite <- Z.pow_add_r by lia. apply Z.pow_lt_mono_r; lia.
Qed.

Lemma round_finite (n r : Z) : Double.round n = Some r -> r < 2 ^ 1024.
Proof.
  unfold Double.round.
  destruct (Z.ltb_spec (Double.roundInteger n) (2 ^ 1024)) as [H | H];
    [| discriminate].
  intros E. injection E as <-. exact H.
Qed.

(** A computed distance is infinite or below [Infinity]: an infinite
    distance is never sorted before a finite one. *)
Lemma calculateDistance_le_infinity (p1 p2 : Position) :
  calculateDistance p1 p2 <= Double.infinity.
Proof.
  unfold calculateDistance.
  destruct (Double.add _ _) as [s |] eqn:Es; [| reflexivity].
  cbn [Double.sqrt from_option]. apply Z.lt_le_incl, sqrtScaled_finite.
  unfold Double.add in Es.
  destruct (Double.square (Double.distance (x p1) (x p2))) as [a |];
    [| discriminate].
  destruct (Double.square (Double.distance (y p1) (y p2))) as [b |];
    [| discriminate].
  cbn [mbind option_bind] in Es. now apply round_finite in Es.
Qed.

(** Within the pixel bound nothing is rounded before the square root. *)
Lemma calculateDistance_exact (p1 p2 : Position) :
  Z.abs (x p1) <= pixelBound -> Z.abs (y p1) <= pixelBound ->
  Z.abs (x p2) <= pixelBound -> Z.abs (y p2) <= pixelBound ->
  calculateDistance p1 p2
  = Double.sqrtScaled ((x p2 - x p1) ^ 2 + (y p2 - y p1) ^ 2) /\
  0 <= (x p2 - x p1) ^ 2 + (y p2 - y p1) ^ 2 <= 2 ^ 51.
Proof.
  unfold pixelBound. intros Hx1 Hy1 Hx2 Hy2.
  set (dx := Z.abs (x p2 - x p1)). set (dy := Z.abs (y p2 - y p1)).
  assert (Hdx : 0 <= dx <= 33554432) by lia.
  assert (Hdy : 0 <= dy <= 33554432) by lia.
  assert (Hxx : (x p2 - x p1) ^ 2 = dx * dx).
  { unfold dx. rewrite Z.pow_2_r. symmetry. apply Z.abs_square. }
  assert (Hyy : (y p2 - y p1) ^ 2 = dy * dy).
  { unfold dy. rewrite Z.pow_2_r. symmetry. apply Z.abs_square. }
  rewrite Hxx, Hyy.
  assert (Hsx : 0 <= dx * dx <= 33554432 * 33554432)
    by (split; [nia | apply Z.mul_le_mono_nonneg; lia]).
  assert (Hsy : 0 <= dy * dy <= 33554432 * 33554432)
    by (split; [nia | apply Z.mul_le_mono_nonneg; lia]).
  change (2 ^ 51) with 2251799813685248.
  split; [| lia].
  unfold calculateDistance, Double.distance. fold dx dy.
  pose proof round_small as Hr. change (2 ^ 53) with 9007199254740992 in Hr.
  rewrite (Hr dx), (Hr dy) by lia. cbn [Double.square mbind option_bind].
  rewrite (Hr (dx * dx)), (Hr (dy * dy)) by lia.
  cbn [Double.add mbind option_bind].
  rewrite (Hr (dx * dx + dy * dy)) by lia. reflexivity.
Qed.

(** Within the pixel bound the computed distances order two candidates as
    their Euclidean distances do. *)
Lemma calculateDistance_le (r c c' : ElementInfo) :
  withinPixelBound r -> withinPixelBound c -> withinPixelBound c' ->
  calculateDistance (El.position r) (El.position c)
  <= calculateDistance (El.position r) (El.position c') <->
  (x (El.position c) - x (El.position r)) ^ 2
  + (y (El.position c) - y (El.position r)) ^ 2
  <= (x (El.position c') - x (El.position r)) ^ 2
     + (y (El.position c') - y (El.position r)) ^ 2.
Proof.
  intros [Hrx Hry] [Hcx Hcy] [Hcx' Hcy'].
  destruct (calculateDistance_exact (El.position r) (El.position c)
              Hrx Hry Hcx Hcy) as [-> Hb].
  destruct (calculateDistance_exact (El.position r) (El.position c')
              Hrx Hry Hcx' Hcy') as [-> Hb'].
  set (n := (x (El.position c) - x (El.position r)) ^ 2
            + (y (El.position c) - y (El.position r)) ^ 2) in *.
  set (n' := (x (El.position c') - x (El.position r)) ^ 2
             + (y (El.position c') - y (El.position r)) ^ 2) in *.
  split; intros H.
  - destruct (Z.le_gt_cases n n') as [? | Hgt]; [assumption | exfalso].
    pose proof (sqrtScaled_lt n' n ltac:(lia) Hgt ltac:(lia)). lia.
  - destruct (Z.eq_dec n n') as [-> | Hne]; [lia |].
    pose proof (sqrtScaled_lt n n' ltac:(lia) ltac:(lia) ltac:(lia)). lia.
Qed.

(** Beyond the bound different distances can round to the same double: in
    the square root from 2^52 on, in the sum of squares from 2^53 on. *)
Example calculateDistance_rounds :
  calculateDistance (mkPosition 0 0) (mkPosition 3 4) = 5 * 2 ^ 52 /\
  calculateDistance (mkPosition 0 0) (mkPosition 1 1) = 6369051672525773 /\
  calculateDistance (mkPosition 0 0) (mkPosition 67108864 1)
  = calculateDistance (mkPosition 0 0) (mkPosition 67108864 0) /\
  calculateDistance (mkPosition 0 0) (mkPosition 100000000 1)
  = calculateDistance (mkPosition 0 0) (mkPosition 100000000 0) /\
  calculateDistance (mkPosition 0 0) (mkPosition 100000000 0)
  = 100000000 * 2 ^ 52.
Proof. repeat split; vm_compute; reflexivity. Qed.

(** A square that overflows makes the distance infinite. *)
Example calculateDistance_overflow :
  calculateDistance (mkPosition 0 0) (mkPosition (2 ^ 511) 0)
  = 2 ^ 511 * 2 ^ 52 /\
  calculateDistance (mkPosition 0 0) (mkPosition (2 ^ 512) 0)
  = Double.infinity /\
  calculateDistance (mkPosition (- 2 ^ 1023) 0) (mkPosition (2 ^ 1023) 0)
  = Double.infinity.
Proof. repeat split; vm_compute; reflexivity. Qed.

Lemma findNearbyElements_perm (r : ElementInfo) (cs : list ElementInfo) :
  findNearbyElements r cs ≡ₚ cs.
Proof. apply sortByKey_perm. Qed.

Lemma findNearbyElements_nil_iff (r : ElementInfo) (cs : list ElementInfo) :
  findNearbyElements r cs = [] <-> cs = [].
Proof. apply sortByKey_nil_iff. Qed.

Lemma findNearbyElements_head (r h : ElementInfo) (cs t : list ElementInfo) :
  findNearbyElements r cs = h :: t -> nearestComputed r h cs.
Proof.
  intros H. destruct (sortByKey_head _ cs h t H) as [Hin [Hle Hfst]].
  split; [exact Hin |]. split; [exact Hle |]. split; [exact Hfst |].
  intros Hb. apply Forall_cons in Hb as [Hr Hcs]. rewrite Forall_forall in Hcs.
  split; [exact Hin |]. intros c' Hc'.
  apply calculateDistance_le; auto.
Qed.

(** A loop that pushes exactly one related action per item emits the
    actions item by item. *)
Lemma flat_map_singletons {A B} (F : A -> list B) (R : A -> B -> Prop)
  (l : list A) :
  (forall a, a ∈ l -> exists b, F a = [b] /\ R a b) ->
  Forall2 R l (flat_map F l).
Proof.
  induction l as [|a l IH]; intros H; simpl; [constructor |].
  destruct (H a (list_elem_of_here _ _)) as [b [-> Hb]]. simpl.
  constructor; [exact Hb |]. apply IH. intros a' Ha'.
  apply H. now apply list_elem_of_further.
Qed.

(** ** The login detector *)

Lemma loginFor_emission (url : string) (ps ss : list ElementInfo)
  (u : ElementInfo) :
  ps <> [] ->
  exists a, loginFor url ps ss u = [a] /\ loginEmission url ps ss u a.
Proof.
  intros Hps. unfold loginFor.
  destruct (findNearbyElements u ps) as [|p tp] eqn:Ep.
  { apply findNearbyElements_nil_iff in Ep. contradiction. }
  apply findNearbyElements_head in Ep.
  destruct (findNearbyElements p ss) as [|s ts] eqn:Es.
  - apply findNearbyElements_nil_iff in Es. subst ss.
    eexists. split; [reflexivity |].
    repeat split; simpl. exists p. auto.
  - apply findNearbyElements_head in Es.
    destruct ss as [|s0 ss0]; [destruct Es as [Es _]; inversion Es |].
    eexists. split; [reflexivity |].
    repeat split; simpl. exists p. split; [exact Ep |].
    split; [reflexivity |]. exists s. auto.
Qed.

(** C1, as the code has it.  The login detector emits an action exactly
    when both the username candidates and the password candidates are
    non-empty.  When there is a password candidate it emits one action per
    username candidate, in order: with a submit candidate present the
    action has confidence 0.9 and the three elements username, nearest
    password, submit nearest to that password; with none it has confidence
    0.7 and the two elements username, nearest password.  Nearest is by the
    distance the code computes in double precision, the first in page order
    among the candidates whose computed distances are equal; it is a nearest
    candidate on the page whenever the reference element and the candidates
    lie within 16777216 pixels of the origin on both axes. *)
Theorem login_detector_emission (cr : CrawlResult) :
  let usernameInputs := List.filter isUsernameInput (CR.elements cr) in
  let passwordInputs := List.filter isPasswordInput (CR.elements cr) in
  let submitButtons := List.filter isLoginSubmit (CR.elements cr) in
  (identifyLoginForms cr <> [] <->
   usernameInputs <> [] /\ passwordInputs <> []) /\
  match passwordInputs with
  | [] => identifyLoginForms cr = []
  | _ :: _ =>
    Forall2 (loginEmission (CR.url cr) passwordInputs submitButtons)
      usernameInputs (identifyLoginForms cr)
  end.
Proof.
  intros us ps ss.
  assert (Hdef : identifyLoginForms cr =
                 if ((0 <? length us) && (0 <? length ps))%nat
                 then flat_map (loginFor (CR.url cr) ps ss) us else [])
    by reflexivity.
  assert (Hall : ps <> [] ->
                 Forall2 (loginEmission (CR.url cr) ps ss) us
                   (flat_map (loginFor (CR.url cr) ps ss) us)).
  { intros Hps. apply flat_map_singletons. intros u _.
    now apply loginFor_emission. }
  split.
  - rewrite Hdef. split.
    + destruct (0 <? length us)%nat eqn:Eu; simpl; [| congruence].
      destruct (0 <? length ps)%nat eqn:Ep; simpl; [| congruence].
      intros _. split; now apply length_pos_iff.
    + intros [Hus Hps].
      apply length_pos_iff in Hus as Eu. apply length_pos_iff in Hps as Ep.
      rewrite Eu, Ep. simpl. specialize (Hall Hps).
      destruct Hall; [congruence | discriminate].
  - destruct ps as [|p0 ps0] eqn:Eps.
    + rewrite Hdef. now rewrite andb_false_r.
    + rewrite Hdef. simpl (0 <? length (p0 :: ps0))%nat.
      rewrite andb_true_r.
      destruct us as [|u0 us0] eqn:Eus; simpl (0 <? _)%nat; cbv iota.
      * constructor.
      * apply Hall. discriminate.
Qed.

(** C1 as written fails on a page 100 000 000 pixels wide.  The username
    input is at the origin; of the two password candidates the second is
    one pixel nearer.  The sums of squares 10^16 + 1 and 10^16 round to
    the same double, the computed distances are equal, and the detector
    pairs the username input with the first candidate, which is not the
    nearest. *)
Lemma login_nearest_rounding_cex :
  List.filter isUsernameInput (CR.elements widePage) = [widePageUsername] /\
  List.filter isPasswordInput (CR.elements widePage)
  = [widePagePassword; widePagePasswordLevel] /\
  List.filter isLoginSubmit (CR.elements widePage) = [] /\
  map (fun a => (UA.confidence a, UA.elements a)) (identifyLoginForms widePage)
  = [(7 # 10, [widePageUsername; widePagePassword])] /\
  ~ nearestTo widePageUsername widePagePassword
      (List.filter isPasswordInput (CR.elements widePage)).
Proof.
  split; [vm_compute; reflexivity |].
  split; [vm_compute; reflexivity |].
  split; [vm_compute; reflexivity |].
  split; [vm_compute; reflexivity |].
  intros [_ Hnear].
  assert (Hin : widePagePasswordLevel
                ∈ List.filter isPasswordInput (CR.elements widePage)).
  { apply elem_of_List_filter. split; [| reflexivity].
    do 2 apply list_elem_of_further. apply list_elem_of_here. }
  specialize (Hnear _ Hin). vm_compute in Hnear. now apply Hnear.
Qed.

Lemma login_detector_emission_witness :
  Forall withinPixelBound (CR.elements loginPage) /\
  exists a,
    identifyLoginForms loginPage = [a] /\
    UA.confidence a = 9 # 10 /\
    UA.elements a = [loginEmail; loginPassword; loginButton] /\
    nearestTo loginEmail loginPassword
      (List.filter isPasswordInput (CR.elements loginPage)) /\
    nearestTo loginPassword loginButton
      (List.filter isLoginSubmit (CR.elements loginPage)).
Proof.
  assert (Hb : Forall withinPixelBound (CR.elements loginPage)).
  { repeat constructor; vm_compute; discriminate. }
  split; [exact Hb |].
  destruct (login_detector_emission loginPage) as [_ H]. cbv zeta in H.
  assert (Eu : List.filter isUsernameInput (CR.elements loginPage)
               = [loginEmail]) by (vm_compute; reflexivity).
  assert (Ep : List.filter isPasswordInput (CR.elements loginPage)
               = [loginPassword]) by (vm_compute; reflexivity).
  assert (Es : List.filter isLoginSubmit (CR.elements loginPage)
               = [loginButton]) by (vm_compute; reflexivity).
  rewrite Eu, Ep, Es in H. rewrite Ep, Es.
  apply Forall2_cons_inv_l in H as (a & acts & Ha & Hrest & ->).
  apply Forall2_nil_inv_l in Hrest as ->.
  exists a. split; [reflexivity |].
  destruct Ha as [_ [_ [p [Hp [Hc [s [Hs He]]]]]]].
  assert (p = loginPassword) as ->.
  { destruct Hp as [Hp _]. now apply list_elem_of_singleton in Hp. }
  assert (s = loginButton) as ->.
  { destruct Hs as [Hs _]. now apply list_elem_of_singleton in Hs. }
  split; [exact Hc |]. split; [exact He |].
  destruct Hp as [_ [_ [_ Hp]]]. destruct Hs as [_ [_ [_ Hs]]].
  split; [apply Hp | apply Hs]; repeat constructor; vm_compute; discriminate.
Defined.

(** ** Grouping links into rows *)

Lemma List_filter_split {A} (f : A -> bool) (l : list A) :
  List.filter f l ++ List.filter (fun a => negb (f a)) l ≡ₚ l.
Proof.
  induction l as [|a l IH]; simpl; [reflexivity |].
  destruct (f a); simpl.
  - now rewrite IH.
  - rewrite <- Permutation_middle. now rewrite IH.
Qed.

Lemma List_filter_length_le {A} (f : A -> bool) (l : list A) :
  (length (List.filter f l) <= length l)%nat.
Proof.
  induction l as [|a l IH]; simpl; [lia |]. destruct (f a); simpl; lia.
Qed.

(** With a first group headed by [f], a link joins that group when it is
    on the row of [f]; otherwise it is handed to the later groups. *)
Lemma groupStep_cons (f link : ElementInfo) (m : list ElementInfo)
  (gs : list (list ElementInfo)) :
  groupStep ((f :: m) :: gs) link =
  if nearRow link f then (f :: m ++ [link]) :: gs
  else (f :: m) :: groupStep gs link.
Proof.
  unfold groupStep. simpl. destruct (nearRow link f); [reflexivity |].
  destruct (addToGroup link gs); reflexivity.
Qed.

Lemma groupLinks_from (links : list ElementInfo) :
  forall (f : ElementInfo) (m : list ElementInfo) (gs : list (list ElementInfo)),
  fold_left groupStep links ((f :: m) :: gs) =
  (f :: m ++ List.filter (fun l => nearRow l f) links)
  :: fold_left groupStep (List.filter (fun l => negb (nearRow l f)) links) gs.
Proof.
  induction links as [|l links IH]; intros f m gs; simpl.
  - now rewrite app_nil_r.
  - rewrite groupStep_cons. destruct (nearRow l f); simpl.
    + rewrite (IH f (m ++ [l]) gs). now rewrite <- app_assoc.
    + apply IH.
Qed.

(** The grouping is a first-fit partition: the first link heads the first
    group, which collects the later links on its row, in order; the other
    links are grouped the same way among themselves. *)
Lemma groupLinks_cons (f : ElementInfo) (rest : list ElementInfo) :
  groupLinks (f :: rest) =
  (f :: List.filter (fun l => nearRow l f) rest)
  :: groupLinks (List.filter (fun l => negb (nearRow l f)) rest).
Proof. unfold groupLinks. simpl. apply (groupLinks_from rest f [] []). Qed.

Lemma groupLinks_nil : groupLinks [] = [].
Proof. reflexivity. Qed.

(** Induction on a list of links along [groupLinks_cons]. *)
Lemma groupLinks_ind (P : list ElementInfo -> Prop) :
  P [] ->
  (forall f rest,
     P (List.filter (fun l => negb (nearRow l f)) rest) -> P (f :: rest)) ->
  forall links, P links.
Proof.
  intros Hnil Hcons links.
  remember (length links) as n eqn:Hn.
  assert (Hle : (length links <= n)%nat) by lia. clear Hn.
  revert links Hle. induction n as [|n IH]; intros links Hle.
  - destruct links; [exact Hnil | simpl in Hle; lia].
  - destruct links as [|f rest]; [exact Hnil |].
    apply Hcons. apply IH. simpl in Hle.
    pose proof (List_filter_length_le (fun l => negb (nearRow l f)) rest). lia.
Qed.

(** The groups partition the links. *)
Lemma groupLinks_concat (links : list ElementInfo) :
  concat (groupLinks links) ≡ₚ links.
Proof.
  induction links as [|f rest IH] using groupLinks_ind; [reflexivity |].
  rewrite groupLinks_cons. simpl. rewrite IH.
  now rewrite List_filter_split.
Qed.

(** Every group has a first member, and all its members are on the row of
    that first member. *)
Lemma groupLinks_rows (links : list ElementInfo) :
  Forall (fun group =>
            exists first others,
              group = first :: others /\
              Forall (fun l => nearRow l first = true) others)
    (groupLinks links).
Proof.
  induction links as [|f rest IH] using groupLinks_ind; [constructor |].
  rewrite groupLinks_cons. constructor; [| exact IH].
  exists f, (List.filter (fun l => nearRow l f) rest). split; [reflexivity |].
  apply Forall_forall. intros l Hl. now apply elem_of_List_filter in Hl.
Qed.

Lemma groupLinks_member (links group : list ElementInfo) (l : ElementInfo) :
  group ∈ groupLinks links -> l ∈ group -> l ∈ links.
Proof.
  intros Hg Hl. rewrite <- (groupLinks_concat links).
  apply list_elem_of_In, in_concat. exists group.
  split; now apply list_elem_of_In.
Qed.

Lemma List_filter_all {A} (f : A -> bool) (l : list A) :
  (forall a, a ∈ l -> f a = true) -> List.filter f l = l.
Proof.
  induction l as [|a l IH]; intros H; simpl; [reflexivity |].
  rewrite (H a (list_elem_of_here _ _)). f_equal. apply IH.
  intros b Hb. apply H. now apply list_elem_of_further.
Qed.

Lemma nearRow_spec (link firstLink : ElementInfo) :
  nearRow link firstLink = true <->
  Z.abs (y (El.position link) - y (El.position firstLink)) < 20.
Proof. unfold nearRow. apply Z.ltb_lt. Qed.

(** Links that all lie on the row of the first one form a single group. *)
Lemma groupLinks_single_row (f : ElementInfo) (rest : list ElementInfo) :
  (forall l, l ∈ rest -> nearRow l f = true) ->
  groupLinks (f :: rest) = [f :: rest].
Proof.
  intros H. rewrite groupLinks_cons.
  rewrite (List_filter_all _ rest H).
  replace (List.filter (fun l => negb (nearRow l f)) rest) with (@nil ElementInfo);
    [reflexivity |].
  symmetry. apply List_filter_nil_iff. intros l Hl. now rewrite (H l Hl).
Qed.

Lemma groupLinks_length_le (links : list ElementInfo) :
  Forall (fun group => (length group <= length links)%nat) (groupLinks links).
Proof.
  induction links as [|f rest IH] using groupLinks_ind; [constructor |].
  rewrite groupLinks_cons. constructor.
  - simpl. pose proof (List_filter_length_le (fun l => nearRow l f) rest). lia.
  - eapply Forall_impl; [exact IH |]. simpl. intros g Hg.
    pose proof (List_filter_length_le (fun l => negb (nearRow l f)) rest). lia.
Qed.

(** The second loop of pass 2 pushes one action per group of three or more. *)
Lemma navGroupFor_flat_map (url : string) (groups : list (list ElementInfo)) :
  flat_map (navGroupFor url) groups =
  map (navGroupAction url)
    (List.filter (fun group => (3 <=? length group)%nat) groups).
Proof.
  induction groups as [|g groups IH]; [reflexivity |].
  cbn [flat_map List.filter]. unfold navGroupFor at 1.
  destruct (3 <=? length g)%nat; cbn [map app]; now rewrite IH.
Qed.

Lemma identifyNavigationMenus_pass2 (cr : CrawlResult) :
  List.filter isNavElement (CR.elements cr) = [] ->
  identifyNavigationMenus cr =
  map (navGroupAction (CR.url cr))
    (List.filter (fun group => (3 <=? length group)%nat)
       (groupLinks (List.filter isLink (CR.elements cr)))).
Proof.
  intros Hnav. unfold identifyNavigationMenus. rewrite Hnav. simpl.
  apply navGroupFor_flat_map.
Qed.

(** C4, as the code has it.  When no element matches the
    navigation-container vocabulary, the detector works on the links: the
    [a] elements that carry a non-empty [href].  It groups them first-fit
    (the first link heads a group that takes every later link strictly
    less than 20px from it vertically; the remaining links are grouped the
    same way), and emits, in group order, exactly one action of confidence
    0.7 per group of at least three links, whose elements are the links of
    the group.  In particular three or more links within a 15px vertical
    spread yield one such action with all of them, and fewer than three
    links yield no action. *)
Theorem navigation_rows_without_container (cr : CrawlResult) :
  List.filter isNavElement (CR.elements cr) = [] ->
  let links := List.filter isLink (CR.elements cr) in
  (forall e, e ∈ links <->
     e ∈ CR.elements cr /\ El.type e = "a" /\
     exists h, El.attributes e !! "href" = Some h /\ h <> EmptyString) /\
  (forall f rest,
     groupLinks (f :: rest) =
     (f :: List.filter (fun l => nearRow l f) rest)
     :: groupLinks (List.filter (fun l => negb (nearRow l f)) rest)) /\
  (forall l f,
     nearRow l f = true <->
     Z.abs (y (El.position l) - y (El.position f)) < 20) /\
  Forall2 (rowEmission (CR.url cr))
    (List.filter (fun group => (3 <=? length group)%nat) (groupLinks links))
    (identifyNavigationMenus cr) /\
  ((3 <= length links)%nat ->
   (forall l l', l ∈ links -> l' ∈ links ->
      Z.abs (y (El.position l) - y (El.position l')) <= 15) ->
   exists a, identifyNavigationMenus cr = [a] /\
             rowEmission (CR.url cr) links a) /\
  ((length links < 3)%nat -> identifyNavigationMenus cr = []).
Proof.
  intros Hnav links.
  pose proof (identifyNavigationMenus_pass2 cr Hnav) as Hout.
  fold links in Hout.
  split; [| split; [| split; [| split; [| split]]]].
  - intros e. unfold links. rewrite elem_of_List_filter.
    unfold isLink, tagIs, JS.truthy. rewrite andb_true_iff, String.eqb_eq.
    split.
    + intros [He [Ht Hh]]. repeat split; auto.
      destruct (El.attributes e !! "href") as [h|]; [| discriminate].
      exists h. split; [reflexivity |]. intros ->. discriminate.
    + intros [He [Ht [h [Hh Hne]]]]. repeat split; auto.
      rewrite Hh. apply negb_true_iff, String.eqb_neq, Hne.
  - apply groupLinks_cons.
  - apply nearRow_spec.
  - rewrite Hout. apply Forall2_fmap_r, Forall_Forall2_diag.
    apply Forall_forall. intros g _. repeat split.
  - intros Hlen Hspread. rewrite Hout.
    destruct links as [|f rest]; [simpl in Hlen; lia |].
    rewrite groupLinks_single_row.
    + cbn [List.filter]. apply Nat.leb_le in Hlen. rewrite Hlen. cbn [map].
      eexists. split; [reflexivity |]. repeat split.
    + intros l Hl. apply nearRow_spec.
      assert (Z.abs (y (El.position l) - y (El.position f)) <= 15); [| lia].
      apply Hspread; [now apply list_elem_of_further | apply list_elem_of_here].
  - intros Hlen. rewrite Hout.
    replace (List.filter (fun group => (3 <=? length group)%nat) (groupLinks links))
      with (@nil (list ElementInfo)); [reflexivity |].
    symmetry. apply List_filter_nil_iff. intros g Hg.
    pose proof (groupLinks_length_le links) as Hle.
    rewrite Forall_forall in Hle. specialize (Hle g Hg).
    apply Nat.leb_gt. lia.
Qed.

(** ** The form detector *)






Lemma formFor_elements (url : string) (inputs buttons : list ElementInfo)
  (g : ElementInfo) (a : UserAction) :
  a ∈ formFor url inputs buttons g ->
  UA.elements a =
  g :: List.filter (insideBox 500 1000 g) inputs
    ++ List.filter (insideBox 500 1000 g) buttons.
Proof.
  unfold formFor. destruct (_ && _)%bool; intros Ha.
  - apply list_elem_of_singleton in Ha as ->. unfold formAction.
    destruct (classifyForm _) as [[? ?] ?]. reflexivity.
  - inversion Ha.
Qed.


(** ** Actions are grounded in the crawl result *)

Lemma Forall_flat_map_elem {A B} (P : B -> Prop) (F : A -> list B) (l : list A) :
  (forall a, a ∈ l -> Forall P (F a)) -> Forall P (flat_map F l).
Proof.
  intros H. apply Forall_flat_map, Forall_forall. exact H.
Qed.

Lemma List_filter_subset {A} (f : A -> bool) (l : list A) (a : A) :
  a ∈ List.filter f l -> a ∈ l.
Proof. intros H. now apply elem_of_List_filter in H. Qed.

(** A member of a literal list. *)
Ltac literal_member :=
  repeat first [apply list_elem_of_here | apply list_elem_of_further].

(** Case analysis on membership in a literal list. *)
Ltac literal_cases H :=
  repeat (apply elem_of_cons in H; destruct H as [-> | H]);
  try (solve [inversion H]).

(** Membership in a literal list: try each member in turn. *)
Ltac in_literal H :=
  repeat (apply elem_of_cons in H; destruct H as [-> | H]; [solve [auto] |]);
  inversion H.

Lemma identifyLoginForms_grounded (cr : CrawlResult) :
  Forall (groundedIn (CR.elements cr)) (identifyLoginForms cr).
Proof.
  unfold identifyLoginForms. destruct (_ && _)%bool; [| constructor].
  apply Forall_flat_map_elem. intros u Hu. unfold loginFor.
  destruct (findNearbyElements u _) as [|p tp] eqn:Ep; [constructor |].
  apply findNearbyElements_head in Ep as [Hp _].
  apply List_filter_subset in Hu, Hp.
  destruct (findNearbyElements p _) as [|s ts] eqn:Es.
  - repeat constructor; [discriminate |]. simpl. intros e He.
    in_literal He.
  - apply findNearbyElements_head in Es as [Hs _].
    apply List_filter_subset in Hs.
    repeat constructor; [discriminate |]. simpl. intros e He.
    in_literal He.
Qed.

Lemma identifySearchInterfaces_grounded (cr : CrawlResult) :
  Forall (groundedIn (CR.elements cr)) (identifySearchInterfaces cr).
Proof.
  unfold identifySearchInterfaces.
  apply Forall_flat_map_elem. intros i Hi. unfold searchFor.
  apply List_filter_subset in Hi.
  destruct (findNearbyElements i _) as [|b tb] eqn:Eb.
  - repeat constructor; [discriminate |]. simpl. intros e He.
    in_literal He.
  - apply findNearbyElements_head in Eb as [Hb _].
    apply List_filter_subset in Hb.
    repeat constructor; [discriminate |]. simpl. intros e He.
    in_literal He.
Qed.

Lemma identifyNavigationMenus_grounded (cr : CrawlResult) :
  Forall (groundedIn (CR.elements cr)) (identifyNavigationMenus cr).
Proof.
  unfold identifyNavigationMenus.
  set (links := List.filter isLink (CR.elements cr)).
  assert (Hpass1 : Forall (groundedIn (CR.elements cr))
                     (flat_map (navFor (CR.url cr) links)
                        (List.filter isNavElement (CR.elements cr)))).
  { apply Forall_flat_map_elem. intros n Hn. unfold navFor.
    destruct (3 <=? _)%nat; [| constructor].
    repeat constructor; [discriminate |]. simpl. intros e He.
    apply elem_of_cons in He as [-> | He].
    - now apply List_filter_subset in Hn.
    - now do 2 apply List_filter_subset in He. }
  destruct (length _ =? 0)%nat; [| exact Hpass1].
  apply Forall_app. split; [exact Hpass1 |].
  apply Forall_flat_map_elem. intros g Hg. unfold navGroupFor.
  destruct (3 <=? length g)%nat eqn:Hlen; [| constructor].
  repeat constructor; simpl.
  - intros ->. discriminate.
  - intros e He. apply (List_filter_subset isLink).
    now apply (groupLinks_member links g).
Qed.

Lemma identifyForms_grounded (cr : CrawlResult) :
  Forall (groundedIn (CR.elements cr)) (identifyForms cr).
Proof.
  unfold identifyForms.
  apply Forall_flat_map_elem. intros f Hf.
  apply Forall_forall. intros a Ha. unfold groundedIn.
  rewrite (formFor_elements _ _ _ _ _ Ha). split; [discriminate |].
  intros e He. apply elem_of_cons in He as [-> | He].
  - now apply List_filter_subset in Hf.
  - apply elem_of_app in He as [He | He]; now do 2 apply List_filter_subset in He.
Qed.

(** C7.  Every action the rule-based classifier returns has a non-empty
    list of elements, each of which is an element of the crawl result it
    was given. *)
Theorem analyzeActions_grounded {Log : Type} (logger : LogLine -> Log -> Log)
  (crawlResult : CrawlResult) (log : Log) :
  Forall
    (fun a =>
       UA.elements a <> [] /\
       forall e, e ∈ UA.elements a -> e ∈ CR.elements crawlResult)
    (analyzeActions logger crawlResult log).1.
Proof.
  change (Forall (groundedIn (CR.elements crawlResult))
            (analyzeActions logger crawlResult log).1).
  unfold analyzeActions. cbn [fst]. rewrite app_nil_l.
  repeat (apply Forall_app; split).
  - apply identifyLoginForms_grounded.
  - apply identifySearchInterfaces_grounded.
  - apply identifyNavigationMenus_grounded.
  - apply identifyForms_grounded.
Qed.

(** ** The username vocabulary of the login detector *)

Lemma tagIs_spec (el : ElementInfo) (t : string) :
  tagIs el t = true <-> El.type el = t.
Proof. apply String.eqb_eq. Qed.

Lemma attrIs_spec (el : ElementInfo) (k v : string) :
  attrIs el k v = true <-> El.attributes el !! k = Some v.
Proof.
  unfold attrIs. destruct (El.attributes el !! k) as [w|].
  - rewrite String.eqb_eq. split; congruence.
  - split; discriminate.
Qed.

Lemma attrIncludes_spec (el : ElementInfo) (k sub : string) :
  attrIncludes el k sub = true <->
  exists v, El.attributes el !! k = Some v /\ containsIgnoringCase v sub.
Proof.
  unfold attrIncludes, containsIgnoringCase.
  destruct (El.attributes el !! k) as [w|].
  - rewrite includes_spec. split.
    + intros H. exists w. auto.
    + intros [v [Hv H]]. injection Hv as ->. exact H.
  - split; [discriminate | intros [v [Hv _]]; discriminate].
Qed.

Lemma descriptionIncludes_spec (el : ElementInfo) (sub : string) :
  descriptionIncludes el sub = true <->
  containsIgnoringCase (El.description el) sub.
Proof. apply includes_spec. Qed.

Lemma textIncludes_spec (el : ElementInfo) (sub : string) :
  textIncludes el sub = true <-> containsIgnoringCase (El.text el) sub.
Proof. apply includes_spec. Qed.

(** C8, as the code has it.  An element is a username candidate exactly
    when it is an [input] whose [type] attribute is "text" or "email" and,
    ignoring letter case, its [name] or [id] attribute contains "user",
    "email" or "login", or its [placeholder] attribute contains "user" or
    "email", or its description contains "username" or "email". *)
Theorem username_candidate_vocabulary (el : ElementInfo) :
  isUsernameInput el = true <->
  El.type el = "input" /\
  (El.attributes el !! "type" = Some "text" \/
   El.attributes el !! "type" = Some "email") /\
  ((exists k w v,
      k ∈ ["name"; "id"] /\ w ∈ ["user"; "email"; "login"] /\
      El.attributes el !! k = Some v /\ containsIgnoringCase v w) \/
   (exists w v,
      w ∈ ["user"; "email"] /\
      El.attributes el !! "placeholder" = Some v /\ containsIgnoringCase v w) \/
   (exists w,
      w ∈ ["username"; "email"] /\
      containsIgnoringCase (El.description el) w)).
Proof.
  unfold isUsernameInput.
  rewrite !andb_true_iff, !orb_true_iff, tagIs_spec, !attrIs_spec,
    !attrIncludes_spec, !descriptionIncludes_spec.
  split.
  - intros [[Ht Hty] Hv]. split; [exact Ht |]. split; [exact Hty |].
    destruct Hv as [[[[[[[[[[v [? ?]] | [v [? ?]]] | [v [? ?]]] | [v [? ?]]]
      | [v [? ?]]] | [v [? ?]]] | [v [? ?]]] | [v [? ?]]] | ?] | ?].
    + left. exists "name", "user", v. repeat split; auto; literal_member.
    + left. exists "name", "email", v. repeat split; auto; literal_member.
    + left. exists "name", "login", v. repeat split; auto; literal_member.
    + left. exists "id", "user", v. repeat split; auto; literal_member.
    + left. exists "id", "email", v. repeat split; auto; literal_member.
    + left. exists "id", "login", v. repeat split; auto; literal_member.
    + right. left. exists "user", v. repeat split; auto; literal_member.
    + right. left. exists "email", v. repeat split; auto; literal_member.
    + right. right. exists "username". split; [literal_member | auto].
    + right. right. exists "email". split; [literal_member | auto].
  - intros [Ht [Hty Hv]]. split; [split; assumption |].
    destruct Hv as [[k [w [v [Hk [Hw [Hv Hc]]]]]] | [[w [v [Hw [Hv Hc]]]] | [w [Hw Hc]]]].
    + literal_cases Hk; literal_cases Hw; eauto 20.
    + literal_cases Hw; eauto 20.
    + literal_cases Hw; eauto 20.
Qed.

(** C8 as written fails on a text input whose placeholder is "Login":
    "login" occurs in its placeholder and in its description, yet it is
    not a username candidate.  It also fails on a text input labelled
    "User": "user" occurs in its description, but "username" does not. *)
Lemma username_candidate_placeholder_login_cex :
  (El.type loginPlaceholderInput = "input" /\
   El.attributes loginPlaceholderInput !! "type" = Some "text" /\
   El.description loginPlaceholderInput =
     generateDescription "input" (El.attributes loginPlaceholderInput)
       EmptyString /\
   attrIncludes loginPlaceholderInput "placeholder" "login" = true /\
   descriptionIncludes loginPlaceholderInput "login" = true /\
   isUsernameInput loginPlaceholderInput = false) /\
  (El.type userLabelInput = "input" /\
   El.attributes userLabelInput !! "type" = Some "text" /\
   descriptionIncludes userLabelInput "user" = true /\
   isUsernameInput userLabelInput = false).
Proof. repeat split; vm_compute; reflexivity. Qed.

(** ** The search detector *)

(** C10.  When one element is both the only search input and the only
    search button of a crawl result, the search detector emits exactly one
    action: confidence 0.9, with that element twice as its elements; the
    input-only branch (confidence 0.7) is not taken.  An [input] whose
    description contains "search" is such an element. *)
Theorem search_input_paired_with_itself (cr : CrawlResult) (e : ElementInfo) :
  List.filter isSearchInput (CR.elements cr) = [e] ->
  List.filter isSearchButton (CR.elements cr) = [e] ->
  (exists a,
     identifySearchInterfaces cr = [a] /\
     UA.type a = "search" /\
     UA.confidence a = 9 # 10 /\
     UA.elements a = [e; e]) /\
  (forall el,
     El.type el = "input" ->
     containsIgnoringCase (El.description el) "search" ->
     isSearchInput el = true /\ isSearchButton el = true).
Proof.
  intros Hin Hbtn. split.
  - exists (searchFull (CR.url cr) e e).
    unfold identifySearchInterfaces. rewrite Hin, Hbtn.
    repeat split.
  - intros el Htag Hdesc.
    apply tagIs_spec in Htag. apply descriptionIncludes_spec in Hdesc.
    unfold isSearchInput, isSearchButton. rewrite Htag, Hdesc.
    rewrite !orb_true_r. auto.
Qed.

Lemma search_input_paired_with_itself_witness :
  List.filter isSearchInput (CR.elements searchPage) = [searchBox] /\
  List.filter isSearchButton (CR.elements searchPage) = [searchBox] /\
  exists a,
    identifySearchInterfaces searchPage = [a] /\
    UA.type a = "search" /\
    UA.confidence a = 9 # 10 /\
    UA.elements a = [searchBox; searchBox].
Proof.
  split; [reflexivity |]. split; [reflexivity |].
  exact (proj1 (search_input_paired_with_itself searchPage searchBox
                  eq_refl eq_refl)).
Defined.

(** ** Sample runs of the detectors *)

Example login_page_full :
  map (fun a => (UA.confidence a, UA.elements a)) (identifyLoginForms loginPage)
  = [(9 # 10, [loginEmail; loginPassword; loginButton])].
Proof. vm_compute. reflexivity. Qed.

Example login_page_partial :
  map (fun a => (UA.confidence a, UA.elements a))
    (identifyLoginForms loginPageNoSubmit)
  = [(7 # 10, [loginEmail; loginPassword])].
Proof. vm_compute. reflexivity. Qed.

Example signup_page_registration :
  map (fun a => (UA.type a, UA.confidence a, UA.elements a))
    (identifyForms signupPage)
  = [("registration", 9 # 10,
      [signupForm; signupName; signupEmail; signupPassword; signupButton])].
Proof. vm_compute. reflexivity. Qed.

(** C4 as written fails on [a] elements that have no [href]: four
    of them within a 15px vertical spread, and no navigation container,
    yield no action. *)
Lemma navigation_bare_anchors_cex :
  List.filter isNavElement (CR.elements bareAnchorsPage) = [] /\
  length (CR.elements bareAnchorsPage) = 4%nat /\
  forallb (fun e => tagIs e "a") (CR.elements bareAnchorsPage) = true /\
  forallb (fun e =>
             forallb (fun e' =>
                        Z.abs (y (El.position e) - y (El.position e')) <=? 15)
               (CR.elements bareAnchorsPage))
    (CR.elements bareAnchorsPage) = true /\
  identifyNavigationMenus bareAnchorsPage = [].
Proof. repeat split; vm_compute; reflexivity. Qed.

(** Grouping is by distance to the first member of a group: four links
    within a 15px spread are split when an earlier link heads the group
    that takes three of them. *)
Example row_split_by_earlier_link :
  map (fun a => map El.text (UA.elements a))
    (identifyNavigationMenus rowAfterEarlierLink)
  = [["Top"; "Home"; "Products"; "Pricing"]].
Proof. vm_compute. reflexivity. Qed.

Lemma navigation_rows_without_container_witness :
  List.filter isNavElement (CR.elements linkRowPage) = [] /\
  exists a,
    identifyNavigationMenus linkRowPage = [a] /\
    rowEmission sampleUrl rowLinks a.
Proof.
  split; [reflexivity |].
  destruct (navigation_rows_without_container linkRowPage eq_refl)
    as [_ [_ [_ [_ [Hrow _]]]]].
  apply Hrow.
  - vm_compute. lia.
  - intros l l' Hl Hl'.
    apply list_elem_of_In in Hl, Hl'. simpl in Hl, Hl'.
    repeat (destruct Hl as [<- | Hl]); try contradiction;
      repeat (destruct Hl' as [<- | Hl']); try contradiction;
      vm_compute; discriminate.
Defined.


(** ** The crawl frontier *)

Import Frontier.

Lemma append_nil_r (s : string) : s +:+ EmptyString = s.
Proof.
  induction s as [|c s IH]; [reflexivity |].
  rewrite append_cons_l. now rewrite IH.
Qed.

Lemma append_assoc (s t r : string) : (s +:+ t) +:+ r = s +:+ t +:+ r.
Proof.
  induction s as [|c s IH]; [reflexivity |].
  rewrite !append_cons_l. now rewrite IH.
Qed.

(** The login/logout filter looks for the four words as they are written:
    lower case, with the leading slash. *)
Lemma isSessionPage_spec (cleanUrl : string) :
  isSessionPage cleanUrl = true <->
  exists w pre post,
    w ∈ ["/login"; "/logout"; "/signin"; "/signout"] /\
    cleanUrl = pre +:+ w +:+ post.
Proof.
  unfold isSessionPage. rewrite !orb_true_iff, !includes_spec. split.
  - intros [[[[pre [post H]] | [pre [post H]]] | [pre [post H]]] | [pre [post H]]];
      eexists _, pre, post; (split; [| exact H]); literal_member.
  - intros [w [pre [post [Hw H]]]]. literal_cases Hw; eauto 10.
Qed.

Section FrontierFacts.
Variable newURL : string -> option string -> option URL.
Variable startUrl : string.
Variable maxUrlsToCrawl : nat.
Variable baseUrlObj : URL.

Local Abbreviation offer := (processLink newURL baseUrlObj).
Local Abbreviation pass := (iteration newURL baseUrlObj).

(** An offered link either leaves the frontier as it is, or appends the
    clean URL of a link on the base host that is neither a session page,
    nor crawled, nor queued. *)
Lemma processLink_cases (url link : string) (st : State) :
  offer url st link = st \/
  exists l,
    hostname l = hostname baseUrlObj /\
    isSessionPage (cleanUrlOf l) = false /\
    (cleanUrlOf l ∉ crawledUrls st) /\
    (cleanUrlOf l ∉ urlQueue st) /\
    offer url st link =
    mkState (urlQueue st ++ [cleanUrlOf l]) (crawledUrls st) (started st).
Proof.
  unfold processLink.
  destruct (newURL link (Some url)) as [a|]; [| now left].
  destruct (newURL (href a) None) as [l|]; [| now left].
  destruct (String.eqb (hostname l) (hostname baseUrlObj)) eqn:Eh;
    [| now left].
  cbn [negb]. destruct (isSessionPage (cleanUrlOf l)) eqn:Es; [now left |].
  destruct (bool_decide (cleanUrlOf l ∈ crawledUrls st)) eqn:Ec; [now left |].
  destruct (bool_decide (cleanUrlOf l ∈ urlQueue st)) eqn:Eq; [now left |].
  right. exists l. cbn [negb andb].
  apply String.eqb_eq in Eh.
  apply bool_decide_eq_false in Ec, Eq. auto.
Qed.

Lemma processLink_visited (url link : string) (st : State) :
  crawledUrls (offer url st link) = crawledUrls st /\
  started (offer url st link) = started st.
Proof.
  destruct (processLink_cases url link st) as [-> | [l [_ [_ [_ [_ ->]]]]]];
    auto.
Qed.

Lemma processLinks_visited (url : string) (links : list string) (st : State) :
  crawledUrls (fold_left (offer url) links st) = crawledUrls st /\
  started (fold_left (offer url) links st) = started st.
Proof.
  revert st. induction links as [|link links IH]; intros st; simpl; [auto |].
  destruct (IH (offer url st link)) as [-> ->]. apply processLink_visited.
Qed.

Lemma processLink_queueInv (url link : string) (st : State) :
  queueInv startUrl baseUrlObj st ->
  queueInv startUrl baseUrlObj (offer url st link).
Proof.
  intros [Hnd Hsite].
  destruct (processLink_cases url link st)
    as [-> | [l [Hh [_ [_ [Hq ->]]]]]]; [now split |].
  split; cbn [urlQueue].
  - apply NoDup_app. split; [exact Hnd |]. split; [| apply NoDup_singleton].
    intros q Hin Hq'. apply list_elem_of_singleton in Hq'. now subst.
  - apply Forall_app. split; [exact Hsite |].
    constructor; [| constructor]. right. eauto.
Qed.

Lemma processLinks_queueInv (url : string) (links : list string) (st : State) :
  queueInv startUrl baseUrlObj st ->
  queueInv startUrl baseUrlObj (fold_left (offer url) links st).
Proof.
  revert st. induction links as [|link links IH]; intros st H; simpl; [auto |].
  now apply IH, processLink_queueInv.
Qed.

Lemma init_queueInv : queueInv startUrl baseUrlObj (init startUrl).
Proof.
  split; cbn.
  - apply NoDup_singleton.
  - constructor; [now left | constructor].
Qed.

Lemma iteration_queueInv (page : string -> option (list string)) (st : State) :
  queueInv startUrl baseUrlObj st -> queueInv startUrl baseUrlObj (pass page st).
Proof.
  intros [Hnd Hsite]. unfold iteration.
  destruct (urlQueue st) as [|url rest] eqn:Eq; [split; now rewrite Eq |].
  apply NoDup_cons in Hnd as [_ Hnd]. apply Forall_cons in Hsite as [_ Hsite].
  destruct (bool_decide (url ∈ crawledUrls st)); [now split |].
  destruct (page url) as [links|]; [| now split].
  apply processLinks_queueInv. now split.
Qed.

Lemma attempt_queueInv (a : Attempt) (st : State) :
  queueInv startUrl baseUrlObj st ->
  queueInv startUrl baseUrlObj (attempt newURL maxUrlsToCrawl baseUrlObj st a).
Proof.
  intros H. destruct a as [page | url link]; cbn [attempt].
  - destruct (guard maxUrlsToCrawl st); [now apply iteration_queueInv | exact H].
  - now apply processLink_queueInv.
Qed.

Lemma attempts_queueInv (l : list Attempt) (st : State) :
  queueInv startUrl baseUrlObj st ->
  queueInv startUrl baseUrlObj (attempts newURL maxUrlsToCrawl baseUrlObj l st).
Proof.
  revert st. induction l as [|a l IH]; intros st H; [exact H |].
  apply IH, attempt_queueInv, H.
Qed.

Lemma init_visitInv : visitInv maxUrlsToCrawl (init startUrl).
Proof.
  repeat split; cbn; try (intros H; inversion H; fail).
  - apply NoDup_nil. exact I.
  - lia.
Qed.

Lemma processLinks_visitInv (url : string) (links : list string) (st : State) :
  visitInv maxUrlsToCrawl st ->
  visitInv maxUrlsToCrawl (fold_left (offer url) links st).
Proof.
  unfold visitInv.
  destruct (processLinks_visited url links st) as [-> ->]. auto.
Qed.

Lemma guard_spec (st : State) :
  guard maxUrlsToCrawl st = true <->
  urlQueue st <> [] /\ (size (crawledUrls st) < maxUrlsToCrawl)%nat.
Proof.
  unfold guard. now rewrite andb_true_iff, length_pos_iff, Nat.ltb_lt.
Qed.

Lemma size_mark (url : string) (crawled : gset string) :
  url ∉ crawled -> size ({[url]} ∪ crawled) = S (size crawled).
Proof.
  intros Hnew. rewrite size_union.
  - now rewrite size_singleton.
  - now apply disjoint_singleton_l.
Qed.

(** Marking a URL that was not crawled yet adds one crawl. *)
Lemma mark_visitInv (url : string) (rest : list string) (st : State) :
  (size (crawledUrls st) < maxUrlsToCrawl)%nat ->
  url ∉ crawledUrls st ->
  visitInv maxUrlsToCrawl st ->
  visitInv maxUrlsToCrawl
    (mkState rest ({[url]} ∪ crawledUrls st) (started st ++ [url])).
Proof.
  intros Hsize Hnew [Hnd [Hset [Hlen Hmax]]].
  assert (Hsz : size ({[url]} ∪ crawledUrls st) = S (size (crawledUrls st))).
  { now apply size_mark. }
  repeat split; cbn [started crawledUrls].
  - apply NoDup_app. split; [exact Hnd |]. split; [| apply NoDup_singleton].
    intros u Hu Hu'. apply list_elem_of_singleton in Hu'. subst u.
    apply Hnew, Hset, Hu.
  - intros Hu. apply elem_of_app in Hu as [Hu | Hu].
    + apply elem_of_union. right. now apply Hset.
    + apply elem_of_union. left. apply list_elem_of_singleton in Hu.
      now apply elem_of_singleton.
  - intros Hu. apply elem_of_union in Hu as [Hu | Hu].
    + apply elem_of_app. right. apply elem_of_singleton in Hu.
      now apply list_elem_of_singleton.
    + apply elem_of_app. left. now apply Hset.
  - rewrite length_app, Hsz. simpl. lia.
  - rewrite length_app. simpl. lia.
Qed.

Lemma iteration_visitInv (page : string -> option (list string)) (st : State) :
  guard maxUrlsToCrawl st = true ->
  visitInv maxUrlsToCrawl st -> visitInv maxUrlsToCrawl (pass page st).
Proof.
  intros Hg Hinv. apply guard_spec in Hg as [_ Hsize].
  unfold iteration.
  destruct (urlQueue st) as [|url rest]; [exact Hinv |].
  destruct (bool_decide (url ∈ crawledUrls st)) eqn:Ec; [exact Hinv |].
  apply bool_decide_eq_false in Ec.
  pose proof (mark_visitInv url rest st Hsize Ec Hinv) as Hmark.
  destruct (page url) as [links|]; [| exact Hmark].
  now apply processLinks_visitInv.
Qed.

Lemma crawlLoop_visitInv (fuel : nat) (page : string -> option (list string))
  (st : State) :
  visitInv maxUrlsToCrawl st ->
  visitInv maxUrlsToCrawl
    (crawlLoop newURL maxUrlsToCrawl baseUrlObj fuel page st).
Proof.
  revert st. induction fuel as [|fuel IH]; intros st H; [exact H |].
  cbn [crawlLoop]. destruct (guard maxUrlsToCrawl st) eqn:Hg; [| exact H].
  now apply IH, iteration_visitInv.
Qed.

(** A pass through the loop either marks one more URL as crawled, or
    leaves the crawled URLs alone and shortens the queue. *)
Lemma iteration_progress (page : string -> option (list string)) (st : State) :
  guard maxUrlsToCrawl st = true ->
  size (crawledUrls (pass page st)) = S (size (crawledUrls st)) \/
  (crawledUrls (pass page st) = crawledUrls st /\
   length (urlQueue (pass page st)) < length (urlQueue st))%nat.
Proof.
  intros Hg. apply guard_spec in Hg as [Hq _]. unfold iteration.
  destruct (urlQueue st) as [|url rest]; [contradiction |].
  destruct (bool_decide (url ∈ crawledUrls st)) eqn:Ec.
  - right. cbn. split; [reflexivity | lia].
  - left. apply bool_decide_eq_false in Ec.
    assert (Hsz : size ({[url]} ∪ crawledUrls st) = S (size (crawledUrls st))).
    { now apply size_mark. }
    destruct (page url) as [links|]; [| exact Hsz].
    destruct (processLinks_visited url links
                (mkState rest ({[url]} ∪ crawledUrls st) (started st ++ [url])))
      as [Hc _].
    rewrite Hc. exact Hsz.
Qed.

(** The loop comes to an end: with enough fuel the loop condition fails. *)
Lemma crawlLoop_terminates (page : string -> option (list string)) (st : State) :
  exists fuel,
    guard maxUrlsToCrawl
      (crawlLoop newURL maxUrlsToCrawl baseUrlObj fuel page st) = false.
Proof.
  remember (maxUrlsToCrawl - size (crawledUrls st))%nat as n eqn:Hn.
  assert (Hle : (maxUrlsToCrawl - size (crawledUrls st) <= n)%nat) by lia.
  clear Hn. revert st Hle.
  induction n as [|n IHn]; intros st Hle.
  - exists 0%nat. cbn [crawlLoop].
    destruct (guard maxUrlsToCrawl st) eqn:Hg; [| reflexivity].
    apply guard_spec in Hg. lia.
  - remember (length (urlQueue st)) as m eqn:Hm.
    assert (Hlm : (length (urlQueue st) <= m)%nat) by lia.
    clear Hm. revert st Hle Hlm.
    induction m as [|m IHm]; intros st Hle Hlm.
    + exists 0%nat. cbn [crawlLoop].
      destruct (guard maxUrlsToCrawl st) eqn:Hg; [| reflexivity].
      apply guard_spec in Hg as [Hq _].
      destruct (urlQueue st); [contradiction | simpl in Hlm; lia].
    + destruct (guard maxUrlsToCrawl st) eqn:Hg;
        [| exists 0%nat; exact Hg].
      destruct (iteration_progress page st Hg) as [Hsz | [Hsame Hshort]].
      * destruct (IHn (pass page st)) as [fuel Hfuel]; [lia |].
        exists (S fuel). cbn [crawlLoop]. now rewrite Hg.
      * destruct (IHm (pass page st)) as [fuel Hfuel];
          [rewrite Hsame; lia | lia |].
        exists (S fuel). cbn [crawlLoop]. now rewrite Hg.
Qed.

(** Once the loop condition fails, more fuel changes nothing. *)
Lemma crawlLoop_stable (fuel k : nat) (page : string -> option (list string))
  (st : State) :
  guard maxUrlsToCrawl
    (crawlLoop newURL maxUrlsToCrawl baseUrlObj fuel page st) = false ->
  crawlLoop newURL maxUrlsToCrawl baseUrlObj (fuel + k) page st =
  crawlLoop newURL maxUrlsToCrawl baseUrlObj fuel page st.
Proof.
  revert st. induction fuel as [|fuel IH]; intros st Hg.
  - cbn [crawlLoop] in *. destruct k; [reflexivity |].
    cbn [Nat.add crawlLoop]. now rewrite Hg.
  - cbn [Nat.add crawlLoop] in *.
    destruct (guard maxUrlsToCrawl st); [now apply IH | reflexivity].
Qed.

(** The link loop body, once the link is read. *)
Lemma processLink_parsed (url link : string) (st : State) (a u : URL) :
  newURL link (Some url) = Some a ->
  newURL (href a) None = Some u ->
  offer url st link =
  if negb (String.eqb (hostname u) (hostname baseUrlObj)) then st
  else if isSessionPage (cleanUrlOf u) then st
  else if negb (bool_decide (cleanUrlOf u ∈ crawledUrls st)) &&
          negb (bool_decide (cleanUrlOf u ∈ urlQueue st))
  then mkState (urlQueue st ++ [cleanUrlOf u]) (crawledUrls st) (started st)
  else st.
Proof. intros Ha Hu. unfold processLink. now rewrite Ha, Hu. Qed.

Lemma processLink_other_host (url link : string) (st : State) (a u : URL) :
  newURL link (Some url) = Some a ->
  newURL (href a) None = Some u ->
  hostname u <> hostname baseUrlObj ->
  offer url st link = st.
Proof.
  intros Ha Hu Hne. rewrite (processLink_parsed url link st a u Ha Hu).
  apply String.eqb_neq in Hne. now rewrite Hne.
Qed.

Lemma processLink_session_page (url link : string) (st : State) (a u : URL) :
  newURL link (Some url) = Some a ->
  newURL (href a) None = Some u ->
  isSessionPage (cleanUrlOf u) = true ->
  offer url st link = st.
Proof.
  intros Ha Hu Hs. rewrite (processLink_parsed url link st a u Ha Hu), Hs.
  now destruct (negb _).
Qed.

(** Offering a second link with the same host and clean URL changes
    nothing. *)
Lemma processLink_twice (url url' link link' : string) (st : State)
  (a u a' u' : URL) :
  newURL link (Some url) = Some a -> newURL (href a) None = Some u ->
  newURL link' (Some url') = Some a' -> newURL (href a') None = Some u' ->
  hostname u = hostname u' -> cleanUrlOf u = cleanUrlOf u' ->
  offer url' (offer url st link) link' = offer url st link.
Proof.
  intros Ha Hu Ha' Hu' Hh Hc.
  rewrite (processLink_parsed url' link' _ a' u' Ha' Hu').
  rewrite (processLink_parsed url link st a u Ha Hu).
  rewrite <- Hh, <- Hc.
  destruct (negb (String.eqb (hostname u) (hostname baseUrlObj))); [reflexivity |].
  destruct (isSessionPage (cleanUrlOf u)); [reflexivity |].
  destruct (bool_decide (cleanUrlOf u ∈ crawledUrls st)) eqn:Ec;
    cbn [negb andb]; [now rewrite Ec |].
  destruct (bool_decide (cleanUrlOf u ∈ urlQueue st)) eqn:Eq;
    cbn [negb andb]; [now rewrite Ec, Eq |].
  cbn [crawledUrls urlQueue]. rewrite Ec. cbn [negb andb].
  rewrite bool_decide_eq_true_2; [reflexivity |].
  apply elem_of_app. right. apply list_elem_of_here.
Qed.

End FrontierFacts.

Lemma login_is_session_page (pre : string) :
  isSessionPage (pre +:+ "/login") = true.
Proof.
  apply isSessionPage_spec. exists "/login", pre, EmptyString.
  split; [literal_member |]. now rewrite append_nil_r.
Qed.

(** C2.  After any sequence of loop passes and link offers, the queue holds
    no URL twice, and every entry is the start URL or the clean URL of a
    link on the host of the start URL.  A link on another host leaves the
    frontier unchanged, and so does a second link with the same host and
    clean URL.  The clean URL is scheme, host name and path, without query
    string and fragment; a link to [/login], whatever its query and
    fragment, has a clean URL ending in [/login], which the session-page
    filter rejects, so it leaves the frontier unchanged. *)
Theorem frontier_queue_invariant
  (newURL : string -> option string -> option URL)
  (startUrl : string) (maxUrlsToCrawl : nat) (baseUrlObj : URL)
  (l : list Attempt) :
  let st := attempts newURL maxUrlsToCrawl baseUrlObj l (init startUrl) in
  NoDup (urlQueue st) /\
  Forall (fun q => q = startUrl \/
                   exists u, q = cleanUrlOf u /\
                             hostname u = hostname baseUrlObj)
    (urlQueue st) /\
  (forall url link a u,
     newURL link (Some url) = Some a -> newURL (href a) None = Some u ->
     hostname u <> hostname baseUrlObj ->
     processLink newURL baseUrlObj url st link = st) /\
  (forall url url' link link' a u a' u',
     newURL link (Some url) = Some a -> newURL (href a) None = Some u ->
     newURL link' (Some url') = Some a' -> newURL (href a') None = Some u' ->
     hostname u = hostname u' -> cleanUrlOf u = cleanUrlOf u' ->
     processLink newURL baseUrlObj url'
       (processLink newURL baseUrlObj url st link) link'
     = processLink newURL baseUrlObj url st link) /\
  (forall u, cleanUrlOf u = protocol u +:+ "//" +:+ hostname u +:+ pathname u) /\
  (forall url link a u,
     newURL link (Some url) = Some a -> newURL (href a) None = Some u ->
     pathname u = "/login" ->
     cleanUrlOf u = (protocol u +:+ "//" +:+ hostname u) +:+ "/login" /\
     isSessionPage (cleanUrlOf u) = true /\
     processLink newURL baseUrlObj url st link = st).
Proof.
  intros st.
  destruct (attempts_queueInv newURL startUrl maxUrlsToCrawl baseUrlObj l
              (init startUrl) (init_queueInv startUrl baseUrlObj))
    as [Hnd Hsite].
  split; [exact Hnd |]. split; [exact Hsite |].
  split; [| split; [| split; [reflexivity |]]].
  - intros url link a u. apply processLink_other_host.
  - intros url url' link link' a u a' u'. apply processLink_twice.
  - intros url link a u Ha Hu Hp.
    assert (Hc : cleanUrlOf u = (protocol u +:+ "//" +:+ hostname u) +:+ "/login").
    { unfold cleanUrlOf. rewrite Hp. now rewrite !append_assoc. }
    split; [exact Hc |].
    assert (Hs : isSessionPage (cleanUrlOf u) = true).
    { rewrite Hc. apply login_is_session_page. }
    split; [exact Hs |].
    now apply (processLink_session_page newURL baseUrlObj url link st a u).
Qed.

(** C3.  In a run of the crawl loop, whatever links the pages yield, the
    URLs for which a crawl is started are pairwise distinct, they are the
    URLs marked as crawled, and there are never more of them than
    [maxUrlsToCrawl]; and the loop ends: from some number of passes on the
    loop condition fails and the state no longer changes. *)
Theorem crawl_budget_respected
  (newURL : string -> option string -> option URL)
  (startUrl : string) (maxUrlsToCrawl : nat) (baseUrlObj : URL)
  (page : string -> option (list string)) :
  (forall fuel,
     let st := crawlLoop newURL maxUrlsToCrawl baseUrlObj fuel page
                 (init startUrl) in
     NoDup (started st) /\
     (forall u, u ∈ started st <-> u ∈ crawledUrls st) /\
     length (started st) = size (crawledUrls st) /\
     (length (started st) <= maxUrlsToCrawl)%nat) /\
  (exists fuel,
     guard maxUrlsToCrawl
       (crawlLoop newURL maxUrlsToCrawl baseUrlObj fuel page (init startUrl))
     = false /\
     forall k,
       crawlLoop newURL maxUrlsToCrawl baseUrlObj (fuel + k) page (init startUrl)
       = crawlLoop newURL maxUrlsToCrawl baseUrlObj fuel page (init startUrl)).
Proof.
  split.
  - intros fuel st.
    apply (crawlLoop_visitInv newURL maxUrlsToCrawl baseUrlObj fuel page).
    apply init_visitInv.
  - destruct (crawlLoop_terminates newURL maxUrlsToCrawl baseUrlObj page
                (init startUrl)) as [fuel Hfuel].
    exists fuel. split; [exact Hfuel |].
    intros k. now apply crawlLoop_stable.
Qed.

(** C9, as the code has it.  The filter is case-sensitive: a link whose
    clean URL contains "/login", "/logout", "/signin" or "/signout",
    written in lower case with the leading slash, is rejected and the
    frontier is unchanged. *)
Theorem session_pages_not_enqueued
  (newURL : string -> option string -> option URL) (baseUrlObj : URL)
  (url link : string) (st : State) (a u : URL) :
  newURL link (Some url) = Some a ->
  newURL (href a) None = Some u ->
  (exists w pre post,
     w ∈ ["/login"; "/logout"; "/signin"; "/signout"] /\
     cleanUrlOf u = pre +:+ w +:+ post) ->
  processLink newURL baseUrlObj url st link = st.
Proof.
  intros Ha Hu Hw. apply isSessionPage_spec in Hw.
  now apply (processLink_session_page newURL baseUrlObj url link st a u).
Qed.

Lemma session_pages_not_enqueued_witness :
  processLink readURL runnerBaseUrlObj runnerStartUrl (init runnerStartUrl)
    "/account/signout?next=%2F"
  = init runnerStartUrl.
Proof.
  eapply session_pages_not_enqueued.
  - reflexivity.
  - reflexivity.
  - exists "/signout", "https://www.testdummy.ai/account", EmptyString.
    split; [literal_member | reflexivity].
Defined.

(** C9 as written fails on a link to [/Login]: "login" occurs in its clean
    URL when letter case is ignored, yet the link is appended to the
    queue.  So is a link to [/blog/relogin-help], whose clean URL contains
    "login" but not "/login". *)
Lemma capital_login_enqueued_cex :
  (readURL "/Login" (Some runnerStartUrl) =
     Some (mkURL "https://www.testdummy.ai/Login" "https:" "www.testdummy.ai"
             EmptyString "/Login" EmptyString EmptyString) /\
   JS.includes (JS.toLowerCase "https://www.testdummy.ai/Login") "login" = true /\
   urlQueue (processLink readURL runnerBaseUrlObj runnerStartUrl
               (init runnerStartUrl) "/Login")
   = [runnerStartUrl; "https://www.testdummy.ai/Login"] /\
   processLink readURL runnerBaseUrlObj runnerStartUrl
     (init runnerStartUrl) "/Login"
   <> init runnerStartUrl) /\
  (JS.includes "https://www.testdummy.ai/blog/relogin-help" "login" = true /\
   urlQueue (processLink readURL runnerBaseUrlObj runnerStartUrl
               (init runnerStartUrl) "/blog/relogin-help")
   = [runnerStartUrl; "https://www.testdummy.ai/blog/relogin-help"]).
Proof.
  split; [| split; reflexivity].
  split; [reflexivity |]. split; [reflexivity |]. split; [reflexivity |].
  intros H. apply (f_equal urlQueue) in H. vm_compute in H. discriminate.
Qed.

(** ** Sample runs of the frontier *)

Example runner_start_is_clean :
  readURL runnerStartUrl None = Some runnerBaseUrlObj /\
  cleanUrlOf runnerBaseUrlObj = runnerStartUrl.
Proof. split; reflexivity. Qed.

Example login_link_rejected :
  option_map cleanUrlOf
    (readURL "https://www.testdummy.ai/login?x=1#y" (Some runnerStartUrl))
  = Some "https://www.testdummy.ai/login" /\
  processLink readURL runnerBaseUrlObj runnerStartUrl (init runnerStartUrl)
    "https://www.testdummy.ai/login?x=1#y"
  = init runnerStartUrl.
Proof. split; reflexivity. Qed.

Example sample_crawl :
  let st := crawlLoop readURL runnerMaxUrlsToCrawl runnerBaseUrlObj 20
              samplePage (init runnerStartUrl) in
  urlQueue st = [] /\
  started st =
  ["https://www.testdummy.ai/dashboard"; "https://www.testdummy.ai/reports";
   "https://www.testdummy.ai/settings"; "https://www.testdummy.ai/Login"].
Proof. vm_compute. split; reflexivity. Qed.

(** * Further properties of the code *)

(** ** [findNearbyElements] *)

Section SortFacts.
Context {A : Type} (key : A -> Z).

Lemma insertByKey_sorted (a : A) (l : list A) :
  StronglySorted (fun b c => key b <= key c) l ->
  StronglySorted (fun b c => key b <= key c) (insertByKey key a l).
Proof.
  induction l as [|b l IH]; simpl; intros Hl.
  - repeat constructor.
  - apply StronglySorted_inv in Hl as [Hl Hb].
    destruct (Z.leb_spec (key a) (key b)) as [Hab | Hab].
    + constructor; [constructor; assumption |].
      constructor; [exact Hab |].
      eapply Forall_impl; [exact Hb |]. simpl. intros c Hc. lia.
    + constructor; [now apply IH |].
      rewrite insertByKey_perm. constructor; [lia | exact Hb].
Qed.

Lemma sortByKey_sorted (l : list A) :
  StronglySorted (fun b c => key b <= key c) (sortByKey key l).
Proof.
  induction l as [|a l IH]; simpl; [constructor |].
  now apply insertByKey_sorted.
Qed.

End SortFacts.

Lemma Forall_perm_sorted {A} (P : A -> Prop) (l l' : list A) :
  l' ≡ₚ l -> Forall P l -> Forall P l'.
Proof. intros Hp H. now rewrite Hp. Qed.

(** Sortedness carries over to a relation that agrees on the members. *)
Lemma StronglySorted_agree {A} (R R' : A -> A -> Prop) (l : list A) :
  (forall b c, b ∈ l -> c ∈ l -> R b c -> R' b c) ->
  StronglySorted R l -> StronglySorted R' l.
Proof.
  induction l as [|a l IH]; intros Hag Hs; [constructor |].
  apply StronglySorted_inv in Hs as [Hs Ha]. constructor.
  - apply IH; [| exact Hs]. intros b c Hb Hc.
    apply Hag; now apply list_elem_of_further.
  - rewrite Forall_forall in Ha |- *. intros c Hc.
    apply Hag; [apply list_elem_of_here | now apply list_elem_of_further |].
    now apply Ha.
Qed.

Lemma List_filter_agree {A} (f g : A -> bool) (l : list A) :
  (forall a, a ∈ l -> f a = g a) -> List.filter f l = List.filter g l.
Proof.
  intros H. apply filter_ext_in. intros a Ha. apply H.
  now apply list_elem_of_In.
Qed.

Lemma List_filter_none {A} (l : list A) : List.filter (fun _ => false) l = [].
Proof. induction l; [reflexivity | assumption]. Qed.

(** X1.  [findNearbyElements] returns the candidates rearranged (none
    lost, none added), in ascending order of the distance the code
    computes, candidates at the same computed distance keeping the order
    they had.  When the reference and the candidates lie within 16777216
    pixels of the origin on both axes, that is the order of their Euclidean
    distances to the reference: each candidate is no farther from the
    reference than all that follow it, and candidates at the same distance
    keep the order they had. *)
Theorem findNearbyElements_sorted_stable (reference : ElementInfo)
  (candidates : list ElementInfo) :
  let computed c :=
    calculateDistance (El.position reference) (El.position c) in
  let squared c :=
    (x (El.position c) - x (El.position reference)) ^ 2
    + (y (El.position c) - y (El.position reference)) ^ 2 in
  let sorted := findNearbyElements reference candidates in
  sorted ≡ₚ candidates /\
  StronglySorted (fun b c => computed b <= computed c) sorted /\
  (forall d,
     List.filter (fun c => computed c =? d) sorted
     = List.filter (fun c => computed c =? d) candidates) /\
  (Forall withinPixelBound (reference :: candidates) ->
   StronglySorted (fun b c => squared b <= squared c) sorted /\
   forall d,
     List.filter (fun c => squared c =? d) sorted
     = List.filter (fun c => squared c =? d) candidates).
Proof.
  intros computed squared sorted.
  assert (Hperm : sorted ≡ₚ candidates) by apply findNearbyElements_perm.
  assert (Hsorted : StronglySorted (fun b c => computed b <= computed c) sorted)
    by apply (sortByKey_sorted computed).
  assert (Hstable : forall d,
             List.filter (fun c => computed c =? d) sorted
             = List.filter (fun c => computed c =? d) candidates)
    by (intros d; apply (sortByKey_stable computed)).
  split; [exact Hperm |]. split; [exact Hsorted |]. split; [exact Hstable |].
  intros Hb. apply Forall_cons in Hb as [Hr Hcs].
  assert (Hss : Forall withinPixelBound sorted)
    by (apply (Forall_perm_sorted _ candidates); assumption).
  rewrite Forall_forall in Hcs, Hss.
  assert (Horder : forall b c, withinPixelBound b -> withinPixelBound c ->
             (computed b <= computed c <-> squared b <= squared c)).
  { intros b c Hbb Hbc. apply calculateDistance_le; assumption. }
  split.
  - apply (StronglySorted_agree (fun b c => computed b <= computed c));
      [| exact Hsorted].
    intros b c Hb Hc. apply Horder; auto.
  - intros d.
    destruct (decide (Exists (fun c => squared c = d) candidates))
      as [Hsome | Hnone].
    + apply Exists_exists in Hsome as [c0 [Hc0 Hd]].
      assert (Hsame : forall c, c ∈ candidates ->
                 (squared c =? d) = (computed c =? computed c0)).
      { intros c Hc. subst d.
        pose proof (Horder c c0 (Hcs c Hc) (Hcs c0 Hc0)) as H1.
        pose proof (Horder c0 c (Hcs c0 Hc0) (Hcs c Hc)) as H2.
        destruct (Z.eqb_spec (squared c) (squared c0)) as [He | Hne];
          destruct (Z.eqb_spec (computed c) (computed c0)) as [He' | Hne'];
          try reflexivity; exfalso; lia. }
      rewrite (List_filter_agree _ (fun c => computed c =? computed c0) sorted).
      * rewrite (List_filter_agree _ (fun c => computed c =? computed c0)
                   candidates) by exact Hsame.
        apply Hstable.
      * intros c Hc. apply Hsame. now rewrite <- Hperm.
    + assert (Hnever : forall c, c ∈ candidates -> (squared c =? d) = false).
      { intros c Hc. apply Z.eqb_neq. intros He. apply Hnone.
        apply Exists_exists. now exists c. }
      rewrite (List_filter_agree _ (fun _ => false) sorted)
        by (intros c Hc; apply Hnever; now rewrite <- Hperm).
      rewrite (List_filter_agree _ (fun _ => false) candidates)
        by exact Hnever.
      now rewrite !List_filter_none.
Qed.

(** Two candidates 100 000 000 pixels away whose distances differ by less
    than the rounding of the sum of squares: the computed distances are
    equal and the candidates keep their order, the farther one first. *)
Example findNearbyElements_rounded_tie :
  findNearbyElements widePageUsername [widePagePassword; widePagePasswordLevel]
  = [widePagePassword; widePagePasswordLevel] /\
  findNearbyElements widePageUsername [widePagePasswordLevel; widePagePassword]
  = [widePagePasswordLevel; widePagePassword].
Proof. split; vm_compute; reflexivity. Qed.

Lemma findNearbyElements_sorted_stable_witness :
  Forall withinPixelBound [loginEmail; loginButton; loginPassword] /\
  findNearbyElements loginEmail [loginButton; loginPassword]
  = [loginPassword; loginButton] /\
  StronglySorted
    (fun b c =>
       (x (El.position b) - x (El.position loginEmail)) ^ 2
       + (y (El.position b) - y (El.position loginEmail)) ^ 2
       <= (x (El.position c) - x (El.position loginEmail)) ^ 2
          + (y (El.position c) - y (El.position loginEmail)) ^ 2)
    (findNearbyElements loginEmail [loginButton; loginPassword]).
Proof.
  assert (Hb : Forall withinPixelBound [loginEmail; loginButton; loginPassword]).
  { repeat constructor; vm_compute; discriminate. }
  split; [exact Hb |]. split; [vm_compute; reflexivity |].
  pose proof (findNearbyElements_sorted_stable loginEmail
                [loginButton; loginPassword]) as H.
  cbv zeta in H. destruct H as [_ [_ [_ H]]].
  exact (proj1 (H Hb)).
Defined.

(** ** Loops that push at most one action per item *)

Lemma flat_map_selected {A B} (F : A -> list B) (R : A -> B -> Prop)
  (q : A -> bool) (l : list A) :
  (forall a, a ∈ l -> q a = true -> exists b, F a = [b] /\ R a b) ->
  (forall a, a ∈ l -> q a = false -> F a = []) ->
  Forall2 R (List.filter q l) (flat_map F l).
Proof.
  induction l as [|a l IH]; intros Hyes Hno; [constructor |].
  cbn [List.filter flat_map].
  assert (IH' : Forall2 R (List.filter q l) (flat_map F l)).
  { apply IH; intros a' Ha'; [apply Hyes | apply Hno];
      now apply list_elem_of_further. }
  destruct (q a) eqn:Hq.
  - destruct (Hyes a (list_elem_of_here _ _) Hq) as [b [-> Hb]].
    now constructor.
  - now rewrite (Hno a (list_elem_of_here _ _) Hq).
Qed.

(** ** The search detector *)

Lemma searchFor_emission (url : string) (bs : list ElementInfo)
  (i : ElementInfo) :
  exists a, searchFor url bs i = [a] /\ searchEmission url bs i a.
Proof.
  unfold searchFor.
  destruct (findNearbyElements i bs) as [|b tb] eqn:Eb.
  - apply findNearbyElements_nil_iff in Eb. subst bs.
    eexists. split; [reflexivity |]. repeat split.
  - apply findNearbyElements_head in Eb.
    destruct bs as [|b0 bs0]; [destruct Eb as [Eb _]; inversion Eb |].
    eexists. split; [reflexivity |]. repeat split. exists b. auto.
Qed.

(** X2.  The search detector emits exactly one action per search input, in
    the order of the inputs: when the page has a search button, confidence
    0.9 with the input and the search button nearest to it; when it has
    none, confidence 0.7 with the input alone.  Nearest is by the distance
    the code computes in double precision, the first in page order among
    the buttons whose computed distances are equal; it is a nearest button
    on the page whenever the input and the buttons lie within 16777216
    pixels of the origin on both axes. *)
Theorem search_detector_emission (cr : CrawlResult) :
  Forall2
    (searchEmission (CR.url cr) (List.filter isSearchButton (CR.elements cr)))
    (List.filter isSearchInput (CR.elements cr))
    (identifySearchInterfaces cr).
Proof.
  unfold identifySearchInterfaces. apply flat_map_singletons.
  intros i _. apply searchFor_emission.
Qed.

Lemma search_detector_emission_witness :
  Forall withinPixelBound (CR.elements searchPage) /\
  exists a,
    identifySearchInterfaces searchPage = [a] /\
    UA.confidence a = 9 # 10 /\
    UA.elements a = [searchBox; searchBox] /\
    nearestTo searchBox searchBox
      (List.filter isSearchButton (CR.elements searchPage)).
Proof.
  assert (Hb : Forall withinPixelBound (CR.elements searchPage)).
  { repeat constructor; vm_compute; discriminate. }
  split; [exact Hb |].
  pose proof (search_detector_emission searchPage) as H.
  assert (Ei : List.filter isSearchInput (CR.elements searchPage)
               = [searchBox]) by (vm_compute; reflexivity).
  assert (Eb : List.filter isSearchButton (CR.elements searchPage)
               = [searchBox]) by (vm_compute; reflexivity).
  rewrite Ei, Eb in H. rewrite Eb.
  apply Forall2_cons_inv_l in H as (a & acts & Ha & Hrest & ->).
  apply Forall2_nil_inv_l in Hrest as ->.
  exists a. split; [reflexivity |].
  destruct Ha as [_ [_ [Hc [b [Hn He]]]]].
  assert (b = searchBox) as ->.
  { destruct Hn as [Hn _]. now apply list_elem_of_singleton in Hn. }
  split; [exact Hc |]. split; [exact He |].
  destruct Hn as [_ [_ [_ Hn]]].
  apply Hn. repeat constructor; vm_compute; discriminate.
Defined.

(** ** The navigation detector *)


(** ** The navigation detector *)

Lemma navFor_pass1 (url : string) (links navElements : list ElementInfo) :
  Forall2 (containerEmission url links)
    (List.filter (isMenuContainer links) navElements)
    (flat_map (navFor url links) navElements).
Proof.
  apply flat_map_selected; intros n _ Hq; unfold navFor;
    unfold isMenuContainer in Hq; rewrite Hq.
  - eexists. split; [reflexivity |]. repeat split.
  - reflexivity.
Qed.

Lemma navGroupFor_rows (url : string) (groups : list (list ElementInfo)) :
  Forall2 (rowEmission url)
    (List.filter (fun group => (3 <=? length group)%nat) groups)
    (flat_map (navGroupFor url) groups).
Proof.
  apply flat_map_selected; intros g _ Hq; unfold navGroupFor; rewrite Hq.
  - eexists. split; [reflexivity |]. repeat split.
  - reflexivity.
Qed.


(** X4.  A page with fewer than three links (the [a] elements with a
    non-empty [href]) yields no navigation action, whatever navigation
    containers it has. *)
Theorem few_links_no_navigation (cr : CrawlResult) :
  (length (List.filter isLink (CR.elements cr)) < 3)%nat ->
  identifyNavigationMenus cr = [].
Proof.
  intros Hfew. unfold identifyNavigationMenus.
  set (links := List.filter isLink (CR.elements cr)) in *.
  pose proof (navFor_pass1 (CR.url cr) links
                (List.filter isNavElement (CR.elements cr))) as Hpass1.
  replace (List.filter (isMenuContainer links)
             (List.filter isNavElement (CR.elements cr)))
    with (@nil ElementInfo) in Hpass1.
  - apply Forall2_nil_inv_l in Hpass1. rewrite Hpass1.
    cbn [length Nat.eqb app].
    pose proof (navGroupFor_rows (CR.url cr) (groupLinks links)) as Hrows.
    replace (List.filter (fun group => (3 <=? length group)%nat)
               (groupLinks links))
      with (@nil (list ElementInfo)) in Hrows;
      [now apply Forall2_nil_inv_l in Hrows |].
    symmetry. apply List_filter_nil_iff. intros g Hg.
    pose proof (groupLinks_length_le links) as Hle.
    rewrite Forall_forall in Hle. specialize (Hle g Hg).
    apply Nat.leb_gt. lia.
  - symmetry. apply List_filter_nil_iff. intros n _.
    unfold isMenuContainer. apply Nat.leb_gt.
    pose proof (List_filter_length_le (insideBox 100 1000 n) links). lia.
Qed.

Lemma few_links_no_navigation_witness :
  (length (List.filter isLink (CR.elements signupPage)) < 3)%nat /\
  identifyNavigationMenus signupPage = [].
Proof.
  assert (H : (length (List.filter isLink (CR.elements signupPage)) < 3)%nat)
    by (vm_compute; lia).
  split; [exact H | exact (few_links_no_navigation signupPage H)].
Defined.

Lemma List_filter_sublist {A} (f : A -> bool) (l : list A) :
  List.filter f l `sublist_of` l.
Proof.
  induction l as [|a l IH]; simpl; [constructor |].
  destruct (f a); [now apply sublist_skip | now apply sublist_cons].
Qed.

Lemma groupLinks_sublists (links : list ElementInfo) :
  Forall (fun group => group `sublist_of` links) (groupLinks links).
Proof.
  induction links as [|f rest IH] using groupLinks_ind; [constructor |].
  rewrite groupLinks_cons. constructor.
  - apply sublist_skip, List_filter_sublist.
  - eapply Forall_impl; [exact IH |]. simpl. intros g Hg.
    apply sublist_cons. etransitivity; [exact Hg | apply List_filter_sublist].
Qed.

(** Members of a later group are off the row of the head of every earlier
    group. *)
Lemma groupLinks_separated (links : list ElementInfo) :
  forall i j gi gj h l,
    (i < j)%nat ->
    groupLinks links !! i = Some gi -> groupLinks links !! j = Some gj ->
    head gi = Some h -> l ∈ gj -> nearRow l h = false.
Proof.
  induction links as [|f rest IH] using groupLinks_ind;
    intros i j gi gj h l Hij Hi Hj Hh Hl.
  - rewrite groupLinks_nil in Hi. destruct i; discriminate.
  - rewrite groupLinks_cons in Hi, Hj.
    destruct j as [|j]; [lia |]. cbn in Hj.
    destruct i as [|i]; cbn in Hi.
    + injection Hi as <-. cbn in Hh. injection Hh as <-.
      assert (Hin : l ∈ List.filter (fun l => negb (nearRow l f)) rest).
      { eapply groupLinks_member; [| exact Hl].
        eapply list_elem_of_lookup_2. exact Hj. }
      apply elem_of_List_filter in Hin as [_ Hin].
      now apply negb_true_iff in Hin.
    + apply (IH i j gi gj h l); auto. lia.
Qed.

(** X5.  The row grouping of the navigation detector partitions the links:
    every link is in exactly one group, each group keeps the page order of
    its links, all members of a group are strictly less than 20px
    vertically from its first member, and every member of a later group is
    at least 20px from the first member of each earlier group. *)
Theorem groupLinks_partition (links : list ElementInfo) :
  concat (groupLinks links) ≡ₚ links /\
  Forall (fun group =>
            group `sublist_of` links /\
            exists first others,
              group = first :: others /\
              Forall (fun l =>
                        Z.abs (y (El.position l) - y (El.position first)) < 20)
                others)
    (groupLinks links) /\
  (forall i j gi gj h l,
     (i < j)%nat ->
     groupLinks links !! i = Some gi -> groupLinks links !! j = Some gj ->
     head gi = Some h -> l ∈ gj ->
     20 <= Z.abs (y (El.position l) - y (El.position h))).
Proof.
  split; [apply groupLinks_concat |]. split.
  - pose proof (groupLinks_sublists links) as Hs.
    pose proof (groupLinks_rows links) as Hr.
    rewrite Forall_forall in Hs, Hr. apply Forall_forall. intros g Hg.
    split; [now apply Hs |].
    destruct (Hr g Hg) as [first [others [-> Hnear]]].
    exists first, others. split; [reflexivity |].
    eapply Forall_impl; [exact Hnear |]. simpl. intros l Hl.
    now apply nearRow_spec.
  - intros i j gi gj h l Hij Hi Hj Hh Hl.
    pose proof (groupLinks_separated links i j gi gj h l Hij Hi Hj Hh Hl) as Hn.
    unfold nearRow in Hn. apply Z.ltb_ge in Hn. exact Hn.
Qed.

(** ** The form detector, in general *)

Lemma classifyForm_kinds (formInputs : list ElementInfo) :
  classifyForm formInputs = ("registration", "Registration Form", 9 # 10) \/
  classifyForm formInputs = ("contact", "Contact Form", 9 # 10) \/
  classifyForm formInputs = ("form", "Form", 7 # 10).
Proof.
  unfold classifyForm.
  destruct (existsb isNameField formInputs), (existsb isEmailField formInputs),
    (existsb isPasswordField formInputs), (existsb isMessageField formInputs),
    (existsb isSubjectField formInputs); cbn; auto.
Qed.



(** X7.  How a form is classified from the fields its inputs show.
    Without an email-like field it is always a generic form (0.7).
    Name, email and password fields make it a registration form, also when
    a message field is present.  Without a password field, name, email and
    message fields make it a contact form, and so do email, subject and
    message fields.  The confidence is 0.9 exactly when the kind is not
    the generic one. *)
Theorem form_classification (formInputs : list ElementInfo) :
  let has p := existsb p formInputs in
  let kind := (classifyForm formInputs).1.1 in
  let confidence := (classifyForm formInputs).2 in
  (has isEmailField = false -> kind = "form") /\
  (has isNameField = true -> has isEmailField = true ->
   has isPasswordField = true -> kind = "registration") /\
  (has isNameField = true -> has isEmailField = true ->
   has isMessageField = true -> has isPasswordField = false ->
   kind = "contact") /\
  (has isEmailField = true -> has isSubjectField = true ->
   has isMessageField = true ->
   has isNameField && has isPasswordField = false -> kind = "contact") /\
  (confidence = 9 # 10 <-> kind <> "form") /\
  (confidence = 7 # 10 <-> kind = "form").
Proof.
  intros has kind confidence. subst has kind confidence.
  unfold classifyForm.
  destruct (existsb isNameField formInputs), (existsb isEmailField formInputs),
    (existsb isPasswordField formInputs), (existsb isMessageField formInputs),
    (existsb isSubjectField formInputs); cbn;
    repeat split; intros; try reflexivity; try discriminate;
    try congruence.
Qed.

(** ** Shape of the classifier's output *)

(** The shape every emitted action has. *)
Lemma confidence_in_unit (q : Q) :
  q = 7 # 10 \/ q = 8 # 10 \/ q = 9 # 10 -> (0 <= q <= 1)%Q.
Proof. intros [-> | [-> | ->]]; split; discriminate. Qed.

Ltac shape_of_action :=
  cbn; split; [reflexivity |]; split; [auto |];
  split; [apply confidence_in_unit; auto |];
  unfold knownKinds; literal_member.

Lemma identifyNavigationMenus_url (cr : CrawlResult) :
  Forall (fun a => UA.url a = CR.url cr) (identifyNavigationMenus cr).
Proof.
  unfold identifyNavigationMenus.
  assert (Hpass1 : Forall (fun a => UA.url a = CR.url cr)
                     (flat_map (navFor (CR.url cr)
                                  (List.filter isLink (CR.elements cr)))
                        (List.filter isNavElement (CR.elements cr)))).
  { apply Forall_flat_map_elem. intros n _. unfold navFor.
    destruct (3 <=? _)%nat; repeat constructor. }
  destruct (length _ =? 0)%nat; [| exact Hpass1].
  apply Forall_app. split; [exact Hpass1 |].
  apply Forall_flat_map_elem. intros g _. unfold navGroupFor.
  destruct (3 <=? length g)%nat; repeat constructor.
Qed.

Lemma rule_actions_url {Log : Type} (logger : LogLine -> Log -> Log)
  (crawlResult : CrawlResult) (log : Log) :
  Forall (fun a => UA.url a = CR.url crawlResult)
    (analyzeActions logger crawlResult log).1.
Proof.
  unfold analyzeActions. cbn [fst]. rewrite app_nil_l.
  repeat (apply Forall_app; split).
  - unfold identifyLoginForms. destruct (_ && _)%bool; [| constructor].
    apply Forall_flat_map_elem. intros u _. unfold loginFor.
    destruct (findNearbyElements u _) as [|p tp]; [constructor |].
    destruct (findNearbyElements p _) as [|s ts]; repeat constructor.
  - unfold identifySearchInterfaces.
    apply Forall_flat_map_elem. intros i _. unfold searchFor.
    destruct (findNearbyElements i _) as [|b tb]; repeat constructor.
  - eapply Forall_impl; [apply identifyNavigationMenus_url |]. auto.
  - unfold identifyForms.
    apply Forall_flat_map_elem. intros f _. unfold formFor.
    destruct (_ && _)%bool; [| constructor].
    constructor; [| constructor]. unfold formAction.
    now destruct (classifyForm _) as [[? ?] ?].
Qed.

(** X8.  Every action the rule-based classifier returns carries the URL of
    the crawl result, a confidence of 0.7, 0.8 or 0.9 (so between 0 and 1),
    and one of the six kinds login, search, navigation, registration,
    contact and form with the matching name. *)
Theorem analyzeActions_shape {Log : Type} (logger : LogLine -> Log -> Log)
  (crawlResult : CrawlResult) (log : Log) :
  Forall
    (fun a =>
       UA.url a = CR.url crawlResult /\
       (UA.confidence a = 7 # 10 \/ UA.confidence a = 8 # 10 \/
        UA.confidence a = 9 # 10) /\
       (0 <= UA.confidence a <= 1)%Q /\
       (UA.type a, UA.name a) ∈ knownKinds)
    (analyzeActions logger crawlResult log).1.
Proof.
  unfold analyzeActions. cbn [fst]. rewrite app_nil_l.
  repeat (apply Forall_app; split).
  - unfold identifyLoginForms. destruct (_ && _)%bool; [| constructor].
    apply Forall_flat_map_elem. intros u _. unfold loginFor.
    destruct (findNearbyElements u _) as [|p tp]; [constructor |].
    destruct (findNearbyElements p _) as [|s ts];
      (constructor; [| constructor]); shape_of_action.
  - unfold identifySearchInterfaces.
    apply Forall_flat_map_elem. intros i _. unfold searchFor.
    destruct (findNearbyElements i _) as [|b tb];
      (constructor; [| constructor]); shape_of_action.
  - unfold identifyNavigationMenus.
    match goal with
    | |- context [flat_map ?F ?l] =>
      assert (Hpass1 : Forall
                (fun a =>
                   UA.url a = CR.url crawlResult /\
                   (UA.confidence a = 7 # 10 \/ UA.confidence a = 8 # 10 \/
                    UA.confidence a = 9 # 10) /\
                   (0 <= UA.confidence a <= 1)%Q /\
                   (UA.type a, UA.name a) ∈ knownKinds)
                (flat_map (navFor (CR.url crawlResult)
                             (List.filter isLink (CR.elements crawlResult)))
                   (List.filter isNavElement (CR.elements crawlResult))))
    end.
    { apply Forall_flat_map_elem. intros n _. unfold navFor.
      destruct (3 <=? _)%nat; [| constructor].
      constructor; [| constructor]. shape_of_action. }
    destruct (length _ =? 0)%nat; [| exact Hpass1].
    apply Forall_app. split; [exact Hpass1 |].
    apply Forall_flat_map_elem. intros g _. unfold navGroupFor.
    destruct (3 <=? length g)%nat; [| constructor].
    constructor; [| constructor]. shape_of_action.
  - unfold identifyForms.
    apply Forall_flat_map_elem. intros f _. unfold formFor.
    destruct (_ && _)%bool; [| constructor].
    constructor; [| constructor]. unfold formAction.
    destruct (classifyForm_kinds
                (List.filter (insideBox 500 1000 f)
                   (List.filter isInputElement (CR.elements crawlResult))))
      as [-> | [-> | ->]]; shape_of_action.
Qed.

(** X9.  Login and search actions need an [input] element: on a page
    without one, the classifier emits neither. *)
Theorem no_input_no_login_no_search (cr : CrawlResult) :
  (forall e, e ∈ CR.elements cr -> El.type e <> "input") ->
  identifyLoginForms cr = [] /\ identifySearchInterfaces cr = [].
Proof.
  intros Hno.
  assert (Htag : forall e, e ∈ CR.elements cr -> tagIs e "input" = false).
  { intros e He. apply String.eqb_neq. now apply Hno. }
  assert (Hu : List.filter isUsernameInput (CR.elements cr) = []).
  { apply List_filter_nil_iff. intros e He. unfold isUsernameInput.
    now rewrite (Htag e He). }
  assert (Hs : List.filter isSearchInput (CR.elements cr) = []).
  { apply List_filter_nil_iff. intros e He. unfold isSearchInput.
    now rewrite (Htag e He). }
  split.
  - unfold identifyLoginForms. now rewrite Hu.
  - unfold identifySearchInterfaces. now rewrite Hs.
Qed.

Lemma no_input_no_login_no_search_witness :
  identifyLoginForms linkRowPage = [] /\
  identifySearchInterfaces linkRowPage = [].
Proof.
  apply no_input_no_login_no_search.
  intros e He. apply list_elem_of_In in He. simpl in He.
  repeat (destruct He as [<- | He]); try contradiction;
    vm_compute; discriminate.
Defined.

(** ** Generated descriptions *)

Lemma toLowerCase_app (s t : string) :
  JS.toLowerCase (s +:+ t) = JS.toLowerCase s +:+ JS.toLowerCase t.
Proof.
  induction s as [|c s IH]; [reflexivity |].
  rewrite append_cons_l. cbn [JS.toLowerCase]. rewrite append_cons_l.
  now rewrite IH.
Qed.

Lemma containsIgnoringCase_empty (s w : string) :
  containsIgnoringCase EmptyString w -> containsIgnoringCase s w.
Proof.
  intros [pre [post H]]. cbn in H.
  destruct pre; [| discriminate]. rewrite append_nil_l in H.
  destruct w; [| discriminate].
  exists EmptyString, (JS.toLowerCase s). reflexivity.
Qed.

Lemma containsIgnoringCase_within (l v r w : string) :
  containsIgnoringCase v w -> containsIgnoringCase (l +:+ v +:+ r) w.
Proof.
  intros [pre [post H]].
  exists (JS.toLowerCase l +:+ pre), (post +:+ JS.toLowerCase r).
  rewrite !toLowerCase_app, H. now rewrite !append_assoc.
Qed.

Lemma join_member (sep p : string) (parts : list string) :
  p ∈ parts -> exists l r, JS.join sep parts = l +:+ p +:+ r.
Proof.
  induction parts as [|q parts IH]; intros Hp; [inversion Hp |].
  destruct parts as [|q' parts].
  - apply list_elem_of_singleton in Hp as ->.
    exists EmptyString, EmptyString. cbn [JS.join].
    now rewrite append_nil_l, append_nil_r.
  - change (JS.join sep (q :: q' :: parts))
      with (q +:+ sep +:+ JS.join sep (q' :: parts)).
    apply elem_of_cons in Hp as [-> | Hp].
    + exists EmptyString, (sep +:+ JS.join sep (q' :: parts)). reflexivity.
    + destruct (IH Hp) as [l [r ->]].
      exists (q +:+ sep +:+ l), r. now rewrite !append_assoc.
Qed.

Lemma truthy_Some (v : string) :
  v <> EmptyString -> JS.truthy (Some v) = true.
Proof. intros Hv. cbn. now apply negb_true_iff, String.eqb_neq. Qed.

(** A part of an append chain: look in each segment in turn. *)
Ltac in_segments :=
  first [ apply list_elem_of_here
        | apply elem_of_app; left; apply list_elem_of_here
        | apply elem_of_app; right; in_segments ].

Lemma description_quotes_attribute (type text k v : string)
  (attributes : gmap string string) :
  k ∈ notableAttributes -> attributes !! k = Some v -> v <> EmptyString ->
  exists l r, generateDescription type attributes text = l +:+ v +:+ r.
Proof.
  intros Hk Hv Hne. unfold notableAttributes in Hk.
  assert (Hpart : exists pre,
             pre +:+ JS.dquote +:+ v +:+ JS.dquote
             ∈ [type]
               ++ (if JS.truthy (attributes !! "id")
                   then ["with id " +:+ JS.dquote +:+
                         default EmptyString (attributes !! "id") +:+ JS.dquote]
                   else [])
               ++ (if JS.truthy (attributes !! "name")
                   then ["named " +:+ JS.dquote +:+
                         default EmptyString (attributes !! "name") +:+ JS.dquote]
                   else [])
               ++ (if JS.truthy (attributes !! "placeholder")
                   then ["with placeholder " +:+ JS.dquote +:+
                         default EmptyString (attributes !! "placeholder")
                         +:+ JS.dquote]
                   else [])
               ++ (if JS.truthy (attributes !! "aria-label")
                   then ["labeled " +:+ JS.dquote +:+
                         default EmptyString (attributes !! "aria-label")
                         +:+ JS.dquote]
                   else [])
               ++ (if JS.truthy (attributes !! "role")
                   then ["with role " +:+ JS.dquote +:+
                         default EmptyString (attributes !! "role") +:+ JS.dquote]
                   else [])
               ++ (if JS.truthy (Some text)
                   then ["containing " +:+ JS.dquote +:+
                         (JS.substring0 50 text +:+
                          (if (50 <? String.length text)%nat
                           then "..." else EmptyString)) +:+ JS.dquote]
                   else [])).
  { literal_cases Hk; eexists; rewrite Hv, (truthy_Some v Hne);
      cbn [default]; in_segments. }
  destruct Hpart as [pre Hpart].
  apply (join_member " ") in Hpart as [l [r Hjoin]].
  exists (l +:+ pre +:+ JS.dquote), (JS.dquote +:+ r).
  unfold generateDescription. rewrite Hjoin. now rewrite !append_assoc.
Qed.

Lemma description_starts_with_type (type text : string)
  (attributes : gmap string string) :
  exists rest, generateDescription type attributes text = type +:+ rest.
Proof.
  unfold generateDescription. cbn [app].
  match goal with |- context [JS.join _ (type :: ?ps)] =>
    destruct ps as [|q qs] end.
  - exists EmptyString. cbn. now rewrite append_nil_r.
  - eexists. reflexivity.
Qed.

Lemma generateDescription_parts (type text : string)
  (attributes : gmap string string) :
  generateDescription type attributes text =
  JS.join " " (descriptionParts type attributes text).
Proof. reflexivity. Qed.

Lemma description_quotes_text (type text : string)
  (attributes : gmap string string) :
  text <> EmptyString ->
  exists l r,
    generateDescription type attributes text
    = l +:+ JS.substring0 50 text +:+ r.
Proof.
  intros Hne.
  assert (Hpart : "containing " +:+ JS.dquote +:+
                  (JS.substring0 50 text +:+
                   (if (50 <? String.length text)%nat
                    then "..." else EmptyString)) +:+ JS.dquote
                  ∈ descriptionParts type attributes text).
  { unfold descriptionParts. rewrite (truthy_Some text Hne). in_segments. }
  apply (join_member " ") in Hpart as [l [r Hjoin]].
  rewrite generateDescription_parts, Hjoin.
  exists (l +:+ "containing " +:+ JS.dquote),
    ((if (50 <? String.length text)%nat then "..." else EmptyString)
     +:+ JS.dquote +:+ r).
  now rewrite !append_assoc.
Qed.

Lemma description_covers_attribute (type text k v w : string)
  (attributes : gmap string string) :
  k ∈ notableAttributes -> attributes !! k = Some v ->
  containsIgnoringCase v w ->
  containsIgnoringCase (generateDescription type attributes text) w.
Proof.
  intros Hk Hv Hw.
  destruct (String.eqb_spec v EmptyString) as [-> | Hne].
  - now apply containsIgnoringCase_empty.
  - destruct (description_quotes_attribute type text k v attributes Hk Hv Hne)
      as [l [r ->]].
    now apply containsIgnoringCase_within.
Qed.

(** X10.  Whatever occurs, ignoring letter case, in the tag type, in the
    value of an [id], [name], [placeholder], [aria-label] or [role]
    attribute, or in the first 50 characters of the text of an element,
    also occurs in the description generated for it. *)
Theorem description_mentions (type text w : string)
  (attributes : gmap string string) :
  (exists k v,
     k ∈ notableAttributes /\ attributes !! k = Some v /\
     containsIgnoringCase v w) \/
  containsIgnoringCase type w \/
  containsIgnoringCase (JS.substring0 50 text) w ->
  containsIgnoringCase (generateDescription type attributes text) w.
Proof.
  intros [[k [v [Hk [Hv Hw]]]] | [Hw | Hw]].
  - now apply (description_covers_attribute type text k v).
  - destruct (description_starts_with_type type text attributes) as [rest ->].
    rewrite <- (append_nil_l (type +:+ rest)).
    now apply containsIgnoringCase_within.
  - destruct (String.eqb_spec text EmptyString) as [-> | Hne].
    + now apply containsIgnoringCase_empty.
    + destruct (description_quotes_text type text attributes Hne)
        as [l [r ->]].
      now apply containsIgnoringCase_within.
Qed.

Lemma description_mentions_witness :
  containsIgnoringCase
    (generateDescription "input" (El.attributes searchBox) EmptyString)
    "search".
Proof.
  apply description_mentions. left.
  exists "placeholder", "Search". split; [| split].
  - unfold notableAttributes. literal_member.
  - reflexivity.
  - exists EmptyString, EmptyString. reflexivity.
Defined.

(** X11.  On a page whose elements are described as the crawler describes
    them, an [input] with "search" in its [name], [id] or [placeholder] is
    a search button as well as a search input.  So once such an input
    exists, every search action has confidence 0.9 and two elements; the
    input-only action of confidence 0.7 is not emitted. *)
Theorem crawled_search_inputs_are_buttons (cr : CrawlResult) (e : ElementInfo)
  (k : string) :
  Forall describedByCrawler (CR.elements cr) ->
  e ∈ CR.elements cr ->
  El.type e = "input" ->
  k ∈ ["name"; "id"; "placeholder"] ->
  attrIncludes e k "search" = true ->
  isSearchInput e = true /\ isSearchButton e = true /\
  Forall (fun a => UA.confidence a = 9 # 10 /\ length (UA.elements a) = 2%nat)
    (identifySearchInterfaces cr).
Proof.
  intros Hdesc He Htag Hk Hattr.
  assert (Hd : descriptionIncludes e "search" = true).
  { apply descriptionIncludes_spec.
    rewrite Forall_forall in Hdesc. rewrite (Hdesc e He).
    apply attrIncludes_spec in Hattr as [v [Hv Hw]].
    apply (description_covers_attribute _ _ k v); [| exact Hv | exact Hw].
    unfold notableAttributes. literal_cases Hk; literal_member. }
  apply tagIs_spec in Htag.
  assert (Hi : isSearchInput e = true).
  { unfold isSearchInput. rewrite Htag, Hd. now rewrite !orb_true_r. }
  assert (Hb : isSearchButton e = true).
  { unfold isSearchButton. rewrite Htag, Hd. now rewrite !orb_true_r. }
  split; [exact Hi |]. split; [exact Hb |].
  unfold identifySearchInterfaces.
  apply Forall_flat_map_elem. intros i _.
  destruct (searchFor_emission (CR.url cr)
              (List.filter isSearchButton (CR.elements cr)) i)
    as [a [-> [_ [_ Ha]]]].
  constructor; [| constructor].
  destruct (List.filter isSearchButton (CR.elements cr)) as [|b bs] eqn:Eb.
  - assert (Hin : e ∈ List.filter isSearchButton (CR.elements cr))
      by now apply elem_of_List_filter.
    rewrite Eb in Hin. inversion Hin.
  - destruct Ha as [Hc [b' [_ ->]]]. auto.
Qed.

Lemma crawled_search_inputs_are_buttons_witness :
  Forall describedByCrawler (CR.elements searchPage) /\
  Forall (fun a => UA.confidence a = 9 # 10 /\ length (UA.elements a) = 2%nat)
    (identifySearchInterfaces searchPage).
Proof.
  assert (Hd : Forall describedByCrawler (CR.elements searchPage))
    by (repeat constructor).
  split; [exact Hd |].
  apply (crawled_search_inputs_are_buttons searchPage searchBox "placeholder").
  - exact Hd.
  - cbn. literal_member.
  - reflexivity.
  - literal_member.
  - reflexivity.
Defined.

Lemma append_self_inv (t s : string) : t +:+ s = t -> s = EmptyString.
Proof.
  induction t as [|c t IH]; [now rewrite append_nil_l |].
  rewrite append_cons_l. intros H. injection H as H. auto.
Qed.

Lemma join_head_only (sep p : string) (rest : list string) :
  JS.join sep (p :: rest) = p -> sep <> EmptyString -> rest = [].
Proof.
  destruct rest as [|q rest]; [reflexivity |].
  change (JS.join sep (p :: q :: rest))
    with (p +:+ sep +:+ JS.join sep (q :: rest)).
  intros H Hsep. apply append_self_inv in H.
  destruct sep; [contradiction | discriminate].
Qed.

(** X12.  A generated description always starts with the tag type, and it
    is the bare tag type exactly when the element has no text and none of
    the attributes [id], [name], [placeholder], [aria-label] and [role]
    with a non-empty value. *)
Theorem description_bare_type (type text : string)
  (attributes : gmap string string) :
  (exists rest, generateDescription type attributes text = type +:+ rest) /\
  (generateDescription type attributes text = type <->
   (forall k, k ∈ notableAttributes ->
              JS.truthy (attributes !! k) = false) /\
   text = EmptyString).
Proof.
  split; [apply description_starts_with_type |].
  rewrite generateDescription_parts. unfold descriptionParts. split.
  - intros H. cbn [app] in H. apply join_head_only in H; [| discriminate].
    destruct (JS.truthy (attributes !! "id")) eqn:E1; [discriminate |].
    destruct (JS.truthy (attributes !! "name")) eqn:E2; [discriminate |].
    destruct (JS.truthy (attributes !! "placeholder")) eqn:E3; [discriminate |].
    destruct (JS.truthy (attributes !! "aria-label")) eqn:E4; [discriminate |].
    destruct (JS.truthy (attributes !! "role")) eqn:E5; [discriminate |].
    destruct (JS.truthy (Some text)) eqn:E6; [discriminate |].
    split.
    + intros k Hk. unfold notableAttributes in Hk.
      literal_cases Hk; assumption.
    + cbn in E6. apply negb_false_iff, String.eqb_eq in E6. exact E6.
  - intros [Hattr ->].
    rewrite !Hattr by (unfold notableAttributes; literal_member).
    reflexivity.
Qed.

(** ** The LLM-backed classifier *)

Lemma elementAt_Some (elements : list ElementInfo) (index : Z) (e : ElementInfo) :
  LLM.elementAt elements index = Some e ->
  0 <= index < Z.of_nat (length elements) /\ e ∈ elements.
Proof.
  unfold LLM.elementAt. destruct (Z.ltb_spec index 0) as [Hneg | Hpos];
    [discriminate |].
  intros H. split.
  - apply lookup_lt_Some in H. lia.
  - eapply list_elem_of_lookup_2. exact H.
Qed.

Lemma elementAt_None (elements : list ElementInfo) (index : Z) :
  LLM.elementAt elements index = None <->
  index < 0 \/ Z.of_nat (length elements) <= index.
Proof.
  unfold LLM.elementAt. destruct (Z.ltb_spec index 0) as [Hneg | Hpos].
  - split; auto.
  - rewrite lookup_ge_None. lia.
Qed.

Lemma omap_length_le {A B} (f : A -> option B) (l : list A) :
  (length (omap f l) <= length l)%nat.
Proof.
  induction l as [|a l IH]; [reflexivity |]. cbn.
  destruct (f a); cbn; lia.
Qed.

Lemma omap_all_Some {A B} (f : A -> option B) (l : list A) :
  Forall (fun a => is_Some (f a)) l -> length (omap f l) = length l.
Proof.
  induction 1 as [|a l [b Hb] _ IH]; [reflexivity |]. cbn.
  rewrite Hb. cbn. now rewrite IH.
Qed.

Lemma omap_all_None {A B} (f : A -> option B) (l : list A) :
  Forall (fun a => f a = None) l -> omap f l = [].
Proof.
  induction 1 as [|a l Ha _ IH]; [reflexivity |]. cbn. now rewrite Ha.
Qed.

(** X13.  The LLM-backed classifier returns no action when the completion
    call fails.  Otherwise it returns one action per item of the response,
    in order, with the item's type, name, description and confidence and
    the URL of the crawl result.  Indices outside the element array are
    dropped silently: the action's elements all belong to the crawl
    result, there are as many as indices when all indices are in range,
    and none at all when every index is out of range. *)
Theorem llm_actions_resolve_indices {Log : Type}
  (logger : LogLine -> Log -> Log) (crawlResult : CrawlResult)
  (response : option (list LLM.RawAction)) (log : Log) :
  let output := (LLM.analyzeActions logger crawlResult response log).1 in
  let inRange (i : Z) := 0 <= i < Z.of_nat (length (CR.elements crawlResult)) in
  match response with
  | None => output = []
  | Some actions =>
    Forall2
      (fun raw a =>
         UA.type a = LLM.type raw /\ UA.name a = LLM.name raw /\
         UA.description a = LLM.description raw /\
         UA.confidence a = LLM.confidence raw /\
         UA.url a = CR.url crawlResult /\
         (forall e, e ∈ UA.elements a -> e ∈ CR.elements crawlResult) /\
         (length (UA.elements a) <= length (LLM.elementIndices raw))%nat /\
         (Forall inRange (LLM.elementIndices raw) ->
          length (UA.elements a) = length (LLM.elementIndices raw)) /\
         (Forall (fun i => ~ inRange i) (LLM.elementIndices raw) ->
          UA.elements a = []))
      actions output
  end.
Proof.
  intros output inRange. subst output.
  destruct response as [actions|]; [| reflexivity].
  cbn [LLM.analyzeActions fst].
  apply Forall2_fmap_r, Forall_Forall2_diag, Forall_forall.
  intros raw _. unfold LLM.toUserAction. cbn.
  repeat split.
  - intros e He. apply list_elem_of_omap in He as [i [_ Hi]].
    now apply elementAt_Some in Hi.
  - apply omap_length_le.
  - intros Hall. apply omap_all_Some.
    eapply Forall_impl; [exact Hall |]. cbn. intros i Hi.
    destruct (LLM.elementAt (CR.elements crawlResult) i) as [e|] eqn:Ei;
      [eauto |].
    apply elementAt_None in Ei. unfold inRange in Hi. lia.
  - intros Hnone. apply omap_all_None.
    eapply Forall_impl; [exact Hnone |]. cbn. intros i Hi.
    apply elementAt_None. unfold inRange in Hi. lia.
Qed.

(** An item whose indices all miss the array becomes an action without
    elements. *)
Example llm_action_without_elements :
  map UA.elements
    (LLM.analyzeActions (fun _ (log : unit) => log) loginPage
       (Some [LLM.mkRawAction "login" "Login" "Sign in to the site"
                [-1; 3; 7] (9 # 10);
              LLM.mkRawAction "login" "Login" "Sign in to the site"
                [1; 5; 0; 1] (1 # 2)]) tt).1
  = [[]; [loginPassword; loginEmail; loginPassword]].
Proof. vm_compute. reflexivity. Qed.

(** ** File names of saved results *)

Lemma chars_app (s t : string) :
  list_ascii_of_string (s +:+ t)
  = list_ascii_of_string s ++ list_ascii_of_string t.
Proof.
  induction s as [|c s IH]; [reflexivity |].
  rewrite append_cons_l. cbn. now rewrite IH.
Qed.

Lemma sanitize_chars (s : string) :
  Forall (fun c => Save.isAlnum c = true \/ c = Save.underscore)
    (list_ascii_of_string (Save.sanitize s)).
Proof.
  induction s as [|c s IH]; cbn; constructor; [| exact IH].
  destruct (Save.isAlnum c) eqn:Hc; auto.
Qed.

Lemma sanitize_fixed (s : string) :
  Forall (fun c => Save.isAlnum c = true \/ c = Save.underscore)
    (list_ascii_of_string s) ->
  Save.sanitize s = s.
Proof.
  induction s as [|c s IH]; cbn; intros H; [reflexivity |].
  apply Forall_cons in H as [[Hc | ->] Hs].
  - rewrite Hc. now rewrite IH.
  - cbn. now rewrite IH.
Qed.

(** X14.  Sanitizing a host name or path for use in a file name keeps its
    length, leaves letters and digits alone and turns every other
    character into an underscore; the result contains nothing else, and
    sanitizing it again changes nothing. *)
Theorem sanitize_safe (s : string) :
  String.length (Save.sanitize s) = String.length s /\
  Forall (fun c => Save.isAlnum c = true \/ c = Save.underscore)
    (list_ascii_of_string (Save.sanitize s)) /\
  Save.sanitize (Save.sanitize s) = Save.sanitize s /\
  (forall i c, String.get i s = Some c ->
     String.get i (Save.sanitize s)
     = Some (if Save.isAlnum c then c else Save.underscore)).
Proof.
  split; [| split; [| split]].
  - induction s as [|c s IH]; cbn; [reflexivity | now rewrite IH].
  - apply sanitize_chars.
  - apply sanitize_fixed, sanitize_chars.
  - induction s as [|d s IH]; intros i c Hi; [destruct i; discriminate |].
    destruct i as [|i]; cbn in *.
    + now injection Hi as ->.
    + now apply IH.
Qed.

Lemma dashed_chars (iso : string) :
  Forall (fun c => isIsoChar c = true) (list_ascii_of_string iso) ->
  Forall (fun c => isFileChar c = true) (list_ascii_of_string (Save.dashed iso)).
Proof.
  induction iso as [|c iso IH]; cbn [Save.dashed list_ascii_of_string];
    intros H; [constructor |].
  apply Forall_cons in H as [Hc H]. constructor; [| now apply IH].
  clear -Hc. unfold isIsoChar in Hc. cbn in Hc.
  repeat (apply orb_true_iff in Hc as [Hc | Hc];
          [apply Ascii.eqb_eq in Hc; subst c; reflexivity |]).
  discriminate.
Qed.

Lemma sanitize_file_chars (s : string) :
  Forall (fun c => isFileChar c = true)
    (list_ascii_of_string (Save.sanitize s)).
Proof.
  eapply Forall_impl; [apply sanitize_chars |]. cbn.
  intros c [Hc | ->]; [| reflexivity].
  unfold isFileChar. now rewrite Hc.
Qed.

Lemma file_chars_no_separator (s sep : string) :
  Forall (fun c => isFileChar c = true) (list_ascii_of_string s) ->
  sep = "/" \/ sep = String (ascii_of_nat 92) EmptyString \/ sep = ":" ->
  JS.includes s sep = false.
Proof.
  intros Hs Hsep. apply not_true_iff_false. intros Hin.
  apply includes_spec in Hin as [pre [post ->]].
  rewrite !chars_app in Hs.
  apply Forall_app in Hs as [_ Hs]. apply Forall_app in Hs as [Hs _].
  destruct Hsep as [-> | [-> | ->]]; cbn in Hs;
    apply Forall_cons in Hs as [Hs _]; discriminate.
Qed.

Lemma append_inj_l (p a b : string) : p +:+ a = p +:+ b -> a = b.
Proof.
  induction p as [|c p IH]; [now rewrite !append_nil_l |].
  rewrite !append_cons_l. intros H. injection H as H. auto.
Qed.

(** X15.  The names of the files written for a crawl result, with the
    date in ISO form, consist of letters, digits, [_], [-] and [.] only, so
    they contain no path separator and no colon; the crawl file and the
    actions file never have the same name; and the actions file is written
    exactly when there are actions. *)
Theorem saved_file_names_safe (urlObj : Frontier.URL) (iso : string)
  (userActions : option (list UserAction)) :
  Forall (fun c => isIsoChar c = true) (list_ascii_of_string iso) ->
  Forall
    (fun name =>
       Forall (fun c => isFileChar c = true) (list_ascii_of_string name) /\
       JS.includes name "/" = false /\
       JS.includes name (String (ascii_of_nat 92) EmptyString) = false /\
       JS.includes name ":" = false)
    (Save.savedFiles urlObj iso userActions) /\
  NoDup (Save.savedFiles urlObj iso userActions) /\
  (Save.actionsFilename urlObj iso ∈ Save.savedFiles urlObj iso userActions
   <-> exists a rest, userActions = Some (a :: rest)).
Proof.
  intros Hiso.
  assert (Hne : Save.crawlFilename urlObj iso <> Save.actionsFilename urlObj iso).
  { unfold Save.crawlFilename, Save.actionsFilename. intros H.
    do 2 apply append_inj_l in H.
    rewrite !append_cons_l in H. injection H as H. discriminate. }
  assert (Hsafe : forall tag,
             tag = "_crawl_" \/ tag = "_actions_" ->
             Forall (fun c => isFileChar c = true)
               (list_ascii_of_string
                  (Save.sanitize (Frontier.hostname urlObj) +:+
                   Save.sanitize (Frontier.pathname urlObj) +:+
                   tag +:+ Save.dashed iso +:+ ".json"))).
  { intros tag Htag. rewrite !chars_app.
    repeat (apply Forall_app; split);
      try apply sanitize_file_chars; try now apply dashed_chars.
    - destruct Htag as [-> | ->]; cbn; repeat constructor.
    - cbn. repeat constructor. }
  assert (Hname : forall name,
             Forall (fun c => isFileChar c = true) (list_ascii_of_string name) ->
             Forall (fun c => isFileChar c = true) (list_ascii_of_string name) /\
             JS.includes name "/" = false /\
             JS.includes name (String (ascii_of_nat 92) EmptyString) = false /\
             JS.includes name ":" = false).
  { intros name Hn. repeat split; [exact Hn | | |];
      apply file_chars_no_separator; auto. }
  unfold Save.savedFiles.
  destruct userActions as [[|a rest]|]; (split; [| split]).
  - repeat constructor; apply Hname, Hsafe; auto.
  - apply NoDup_singleton.
  - split.
    + intros H. apply list_elem_of_singleton in H. now symmetry in H.
    + intros [a [rest H]]. discriminate.
  - repeat constructor; apply Hname, Hsafe; auto.
  - apply NoDup_cons. split; [| apply NoDup_singleton].
    intros H. now apply list_elem_of_singleton in H.
  - split; [eauto |]. intros _. literal_member.
  - repeat constructor; apply Hname, Hsafe; auto.
  - apply NoDup_singleton.
  - split.
    + intros H. apply list_elem_of_singleton in H. now symmetry in H.
    + intros [a [rest H]]. discriminate.
Qed.

Lemma saved_file_names_safe_witness :
  Save.savedFiles Frontier.runnerBaseUrlObj "2026-11-02T12:30:45.123Z"
    (Some (identifyLoginForms loginPage))
  = ["www_testdummy_ai_dashboard_crawl_2026-11-02T12-30-45-123Z.json";
     "www_testdummy_ai_dashboard_actions_2026-11-02T12-30-45-123Z.json"] /\
  NoDup (Save.savedFiles Frontier.runnerBaseUrlObj "2026-11-02T12:30:45.123Z"
           (Some (identifyLoginForms loginPage))).
Proof.
  split; [reflexivity |].
  apply saved_file_names_safe. vm_compute. repeat constructor.
Defined.

(** ** The in-memory vector store *)

Section VectorStoreFacts.
Context {V M : Type}.
Implicit Types (vectors : @VectorDB.Vectors V M) (value : V * M).

Lemma get_set_same (id : string) value vectors :
  VectorDB.get id (VectorDB.set id value vectors) = Some value.
Proof.
  induction vectors as [|[k v] rest IH]; cbn.
  - now rewrite String.eqb_refl.
  - destruct (String.eqb k id) eqn:Hk; cbn; now rewrite Hk.
Qed.

Lemma get_set_other (id id' : string) value vectors :
  id' <> id ->
  VectorDB.get id' (VectorDB.set id value vectors) = VectorDB.get id' vectors.
Proof.
  intros Hne. induction vectors as [|[k v] rest IH]; cbn.
  - apply String.eqb_neq in Hne. rewrite String.eqb_sym in Hne.
    now rewrite Hne.
  - destruct (String.eqb_spec k id) as [-> | Hk]; cbn.
    + apply String.eqb_neq in Hne. rewrite String.eqb_sym in Hne.
      now rewrite Hne.
    + now rewrite IH.
Qed.

Lemma keys_set (id : string) value vectors :
  map fst (VectorDB.set id value vectors) =
  if bool_decide (id ∈ map fst vectors)
  then map fst vectors else map fst vectors ++ [id].
Proof.
  induction vectors as [|[k v] rest IH]; [reflexivity |]. cbn.
  destruct (String.eqb_spec k id) as [-> | Hk]; cbn.
  - rewrite bool_decide_eq_true_2; [reflexivity | apply list_elem_of_here].
  - rewrite IH. destruct (bool_decide (id ∈ map fst rest)) eqn:Hin.
    + apply bool_decide_eq_true_1 in Hin.
      rewrite bool_decide_eq_true_2; [reflexivity |].
      now apply list_elem_of_further.
    + apply bool_decide_eq_false_1 in Hin.
      rewrite bool_decide_eq_false_2; [reflexivity |].
      intros H. apply elem_of_cons in H as [-> | H]; contradiction.
Qed.

Lemma keys_set_NoDup (id : string) value vectors :
  NoDup (map fst vectors) -> NoDup (map fst (VectorDB.set id value vectors)).
Proof.
  intros Hnd. rewrite keys_set.
  destruct (bool_decide (id ∈ map fst vectors)) eqn:Hin; [exact Hnd |].
  apply bool_decide_eq_false_1 in Hin.
  apply NoDup_app. split; [exact Hnd |]. split; [| apply NoDup_singleton].
  intros k Hk Hk'. apply list_elem_of_singleton in Hk'. now subst.
Qed.

Lemma imap_ids {A B C} (f : nat -> A -> C) (g : A -> B) (h : C -> B)
  (l : list A) :
  (forall i a, h (f i a) = g a) -> map h (imap f l) = map g l.
Proof.
  revert f. induction l as [|a l IH]; intros f Hf; [reflexivity |].
  cbn. rewrite Hf. f_equal. apply IH. intros i b. apply Hf.
Qed.

End VectorStoreFacts.

(** X16.  Storing a vector under an id makes it the entry found under that
    id and leaves every other id as it was.  An id that is already present
    keeps its place and the store its size; a new id goes to the end.  So
    the ids of a store built by [storeVector] alone are pairwise
    distinct. *)
Theorem storeVector_lookup {V M : Type} (id : string) (vector : V)
  (metadata : M)
  (stores : list (string * V * M)) :
  let build :=
    fold_left (fun vectors '(i, v, m) => VectorDB.storeVector i v m vectors) in
  let vectors := build stores [] in
  let vectors' := VectorDB.storeVector id vector metadata vectors in
  VectorDB.get id vectors' = Some (vector, metadata) /\
  (forall id', id' <> id -> VectorDB.get id' vectors' = VectorDB.get id' vectors) /\
  map fst vectors' =
    (if bool_decide (id ∈ map fst vectors)
     then map fst vectors else map fst vectors ++ [id]) /\
  NoDup (map fst vectors) /\ NoDup (map fst vectors').
Proof.
  intros build vectors vectors'.
  assert (Hnd : NoDup (map fst vectors)).
  { subst vectors build.
    assert (Hgen : forall start : @VectorDB.Vectors V M,
               NoDup (map fst start) ->
               NoDup (map fst
                        (fold_left
                           (fun vectors '(i, v, m) =>
                              VectorDB.storeVector i v m vectors)
                           stores start))).
    { induction stores as [|[[i v] m] stores IH]; intros start Hs; [exact Hs |].
      cbn [fold_left]. apply IH. now apply keys_set_NoDup. }
    apply Hgen. constructor. }
  split; [apply get_set_same |].
  split; [intros id' Hne; now apply get_set_other |].
  split; [apply keys_set |].
  split; [exact Hnd | now apply keys_set_NoDup].
Qed.

Lemma slice0_nonneg {A} (n : Z) (l : list A) :
  0 <= n -> VectorDB.slice0 n l = take (Z.to_nat n) l.
Proof.
  intros Hn. unfold VectorDB.slice0.
  destruct (Z.ltb_spec n 0); [lia | reflexivity].
Qed.

(** X17.  [searchSimilar] does not look at the query vector: with a limit
    of [n >= 0] it returns the first [n] stored entries in insertion order
    (all of them when there are fewer), each with its own metadata; without
    a limit it returns the first 10; with a negative limit [-n] it leaves
    out the last [n] entries. *)
Theorem searchSimilar_first_entries {V M : Type} (random : nat -> Q)
  (vector vector' : V) (limit : option Z) (vectors : @VectorDB.Vectors V M) :
  let results := VectorDB.searchSimilar random vector limit vectors in
  let n := default 10 limit in
  results = VectorDB.searchSimilar random vector' limit vectors /\
  (0 <= n ->
   map (fun r => (r.1.1, r.2)) results
   = take (Z.to_nat n) (map (fun entry => (entry.1, entry.2.2)) vectors) /\
   length results = Nat.min (Z.to_nat n) (length vectors)) /\
  (n < 0 ->
   map (fun r => (r.1.1, r.2)) results
   = take (length vectors - Z.to_nat (- n))
       (map (fun entry => (entry.1, entry.2.2)) vectors)) /\
  (forall i r, results !! i = Some r -> r.1.2 = random i).
Proof.
  intros results n. subst results. unfold VectorDB.searchSimilar. fold n.
  assert (Hmap : forall l : @VectorDB.Vectors V M,
             map (fun r : string * Q * M => (r.1.1, r.2))
               (imap (fun i entry => (entry.1, random i, entry.2.2)) l)
             = map (fun entry : string * (V * M) => (entry.1, entry.2.2)) l).
  { intros l. apply imap_ids. reflexivity. }
  split; [reflexivity |]. split; [| split].
  - intros Hn. rewrite Hmap, slice0_nonneg by exact Hn.
    split; [apply fmap_take |].
    now rewrite length_imap, length_take.
  - intros Hn. rewrite Hmap. unfold VectorDB.slice0.
    destruct (Z.ltb_spec n 0); [| lia].
    replace (Z.to_nat (Z.max 0 (Z.of_nat (length vectors) + n)))
      with (length vectors - Z.to_nat (- n))%nat by lia.
    apply fmap_take.
  - intros i r Hr. rewrite list_lookup_imap in Hr.
    destruct (VectorDB.slice0 n vectors !! i); [| discriminate].
    cbn in Hr. now injection Hr as <-.
Qed.

(** ** More on the crawl frontier *)

Section FrontierOrder.
Variable newURL : string -> option string -> option URL.
Variable maxUrlsToCrawl : nat.
Variable baseUrlObj : URL.

Local Abbreviation offer := (processLink newURL baseUrlObj).
Local Abbreviation pass := (iteration newURL baseUrlObj).
Local Abbreviation loop := (crawlLoop newURL maxUrlsToCrawl baseUrlObj).

Lemma processLink_pendingInv (url link : string) (st : State) :
  pendingInv st -> pendingInv (offer url st link).
Proof.
  intros Hp.
  destruct (processLink_cases newURL baseUrlObj url link st)
    as [-> | [l [_ [_ [Hc [_ ->]]]]]]; [exact Hp |].
  intros u Hu. cbn in *. apply elem_of_app in Hu as [Hu | Hu]; [auto |].
  apply list_elem_of_singleton in Hu. now subst.
Qed.

Lemma processLinks_pendingInv (url : string) (links : list string) (st : State) :
  pendingInv st -> pendingInv (fold_left (offer url) links st).
Proof.
  revert st. induction links as [|link links IH]; intros st H; [exact H |].
  cbn [fold_left]. now apply IH, processLink_pendingInv.
Qed.

(** Offered links extend the discovered URLs at the end. *)
Lemma processLink_discovered (url link : string) (st : State) :
  discovered st `prefix_of` discovered (offer url st link).
Proof.
  destruct (processLink_cases newURL baseUrlObj url link st)
    as [-> | [l [_ [_ [_ [_ ->]]]]]]; [reflexivity |].
  unfold discovered. cbn. rewrite app_assoc. now apply prefix_app_r.
Qed.

Lemma processLinks_discovered (url : string) (links : list string) (st : State) :
  discovered st `prefix_of` discovered (fold_left (offer url) links st).
Proof.
  revert st. induction links as [|link links IH]; intros st; [reflexivity |].
  cbn [fold_left]. etransitivity; [apply processLink_discovered | apply IH].
Qed.

(** A pass takes the head of the queue, which is not crawled yet, and
    starts its crawl. *)
Lemma iteration_fresh (page : string -> option (list string)) (st : State)
  (url : string) (rest : list string) :
  pendingInv st -> urlQueue st = url :: rest ->
  pass page st =
  match page url with
  | None => mkState rest ({[url]} ∪ crawledUrls st) (started st ++ [url])
  | Some links =>
    fold_left (offer url) links
      (mkState rest ({[url]} ∪ crawledUrls st) (started st ++ [url]))
  end.
Proof.
  intros Hp Hq. unfold iteration. rewrite Hq.
  rewrite bool_decide_eq_false_2; [reflexivity |].
  apply Hp. rewrite Hq. apply list_elem_of_here.
Qed.

Lemma iteration_pendingInv (page : string -> option (list string)) (st : State) :
  NoDup (urlQueue st) -> pendingInv st -> pendingInv (pass page st).
Proof.
  intros Hnd Hp.
  destruct (urlQueue st) as [|url rest] eqn:Hq.
  - unfold iteration. now rewrite Hq.
  - rewrite (iteration_fresh page st url rest Hp Hq).
    apply NoDup_cons in Hnd as [Hnew _].
    assert (Hp' : pendingInv
                    (mkState rest ({[url]} ∪ crawledUrls st)
                       (started st ++ [url]))).
    { intros u Hu Hc. cbn in *. apply elem_of_union in Hc as [Hc | Hc].
      - apply elem_of_singleton in Hc. now subst.
      - apply (Hp u); [rewrite Hq; now apply list_elem_of_further | exact Hc]. }
    destruct (page url); [now apply processLinks_pendingInv | exact Hp'].
Qed.

Lemma iteration_discovered (page : string -> option (list string)) (st : State) :
  pendingInv st -> discovered st `prefix_of` discovered (pass page st).
Proof.
  intros Hp.
  destruct (urlQueue st) as [|url rest] eqn:Hq.
  - unfold iteration. now rewrite Hq.
  - rewrite (iteration_fresh page st url rest Hp Hq).
    assert (Heq : discovered st =
                  discovered (mkState rest ({[url]} ∪ crawledUrls st)
                                (started st ++ [url]))).
    { unfold discovered. cbn. rewrite Hq. now rewrite <- app_assoc. }
    rewrite Heq.
    destruct (page url); [apply processLinks_discovered | reflexivity].
Qed.

Lemma iteration_started (page : string -> option (list string)) (st : State) :
  started st `prefix_of` started (pass page st).
Proof.
  unfold iteration. destruct (urlQueue st) as [|url rest]; [reflexivity |].
  destruct (bool_decide (url ∈ crawledUrls st)); [reflexivity |].
  destruct (page url) as [links|].
  - destruct (processLinks_visited newURL baseUrlObj url links
                (mkState rest ({[url]} ∪ crawledUrls st) (started st ++ [url])))
      as [_ ->].
    now apply prefix_app_r.
  - now apply prefix_app_r.
Qed.

(** Running on in two stretches. *)
Lemma crawlLoop_add (fuel k : nat) (page : string -> option (list string))
  (st : State) :
  loop (fuel + k) page st = loop k page (loop fuel page st).
Proof.
  revert st. induction fuel as [|fuel IH]; intros st; [reflexivity |].
  cbn [Nat.add crawlLoop].
  destruct (guard maxUrlsToCrawl st) eqn:Hg; [apply IH |].
  destruct k; [reflexivity |]. cbn [crawlLoop]. now rewrite Hg.
Qed.

End FrontierOrder.

Section FrontierRun.
Variable newURL : string -> option string -> option URL.
Variable startUrl : string.
Variable maxUrlsToCrawl : nat.
Variable baseUrlObj : URL.

Local Abbreviation step := (attempt newURL maxUrlsToCrawl baseUrlObj).
Local Abbreviation run := (attempts newURL maxUrlsToCrawl baseUrlObj).
Local Abbreviation loop := (crawlLoop newURL maxUrlsToCrawl baseUrlObj).

(** The invariants of the frontier, together. *)
Lemma attempt_invariants (a : Attempt) (st : State) :
  queueInv startUrl baseUrlObj st /\ pendingInv st ->
  queueInv startUrl baseUrlObj (step st a) /\ pendingInv (step st a).
Proof.
  intros [Hq Hp]. split; [now apply attempt_queueInv |].
  destruct a as [page | url link]; cbn [attempt].
  - destruct (guard maxUrlsToCrawl st); [| exact Hp].
    apply iteration_pendingInv; [apply Hq | exact Hp].
  - now apply processLink_pendingInv.
Qed.

Lemma attempts_invariants (l : list Attempt) (st : State) :
  queueInv startUrl baseUrlObj st /\ pendingInv st ->
  queueInv startUrl baseUrlObj (run l st) /\ pendingInv (run l st).
Proof.
  revert st. induction l as [|a l IH]; intros st H; [exact H |].
  apply IH, attempt_invariants, H.
Qed.

Lemma init_invariants :
  queueInv startUrl baseUrlObj (init startUrl) /\ pendingInv (init startUrl).
Proof.
  split; [apply init_queueInv |].
  intros u _ Hc. cbn in Hc. now apply not_elem_of_empty in Hc.
Qed.

Lemma crawlLoop_invariants (fuel : nat) (page : string -> option (list string))
  (st : State) :
  queueInv startUrl baseUrlObj st /\ pendingInv st ->
  queueInv startUrl baseUrlObj (loop fuel page st) /\
  pendingInv (loop fuel page st).
Proof.
  revert st. induction fuel as [|fuel IH]; intros st H; [exact H |].
  cbn [crawlLoop]. destruct (guard maxUrlsToCrawl st) eqn:Hg; [| exact H].
  apply IH. pose proof (attempt_invariants (LoopPass page) st H) as H'.
  cbn [attempt] in H'. now rewrite Hg in H'.
Qed.

Lemma crawlLoop_discovered (k : nat) (page : string -> option (list string))
  (st : State) :
  queueInv startUrl baseUrlObj st /\ pendingInv st ->
  discovered st `prefix_of` discovered (loop k page st) /\
  started st `prefix_of` started (loop k page st).
Proof.
  revert st. induction k as [|k IH]; intros st H; [split; reflexivity |].
  cbn [crawlLoop]. destruct (guard maxUrlsToCrawl st) eqn:Hg;
    [| split; reflexivity].
  pose proof (attempt_invariants (LoopPass page) st H) as H'.
  cbn [attempt] in H'. rewrite Hg in H'.
  destruct (IH _ H') as [Hd Hs]. split.
  - etransitivity; [| exact Hd]. apply iteration_discovered, H.
  - etransitivity; [| exact Hs]. apply iteration_started.
Qed.

End FrontierRun.

Section SessionFree.
Variable newURL : string -> option string -> option URL.
Variable startUrl : string.
Variable maxUrlsToCrawl : nat.
Variable baseUrlObj : URL.

Local Abbreviation offer := (processLink newURL baseUrlObj).

Lemma processLink_sessionFree (url link : string) (st : State) :
  sessionFreeInv startUrl st -> sessionFreeInv startUrl (offer url st link).
Proof.
  intros H.
  destruct (processLink_cases newURL baseUrlObj url link st)
    as [-> | [l [_ [Hs [_ [_ ->]]]]]]; [exact H |].
  unfold sessionFreeInv in *. cbn. rewrite app_assoc.
  apply Forall_app. split; [exact H |]. constructor; [now right | constructor].
Qed.

Lemma processLinks_sessionFree (url : string) (links : list string) (st : State) :
  sessionFreeInv startUrl st ->
  sessionFreeInv startUrl (fold_left (offer url) links st).
Proof.
  revert st. induction links as [|link links IH]; intros st H; [exact H |].
  cbn [fold_left]. now apply IH, processLink_sessionFree.
Qed.

Lemma iteration_sessionFree (page : string -> option (list string)) (st : State) :
  sessionFreeInv startUrl st ->
  sessionFreeInv startUrl (iteration newURL baseUrlObj page st).
Proof.
  intros H. unfold iteration.
  destruct (urlQueue st) as [|url rest] eqn:Hq; [exact H |].
  unfold sessionFreeInv in H. rewrite Hq in H.
  apply Forall_app in H as [Hs Hq']. apply Forall_cons in Hq' as [Hu Hr].
  destruct (bool_decide (url ∈ crawledUrls st)).
  - unfold sessionFreeInv. cbn. apply Forall_app. now split.
  - assert (H' : sessionFreeInv startUrl
                   (mkState rest ({[url]} ∪ crawledUrls st)
                      (started st ++ [url]))).
    { unfold sessionFreeInv. cbn. repeat (apply Forall_app; split); auto. }
    destruct (page url); [now apply processLinks_sessionFree | exact H'].
Qed.

Lemma attempts_sessionFree (l : list Attempt) (st : State) :
  sessionFreeInv startUrl st ->
  sessionFreeInv startUrl (attempts newURL maxUrlsToCrawl baseUrlObj l st).
Proof.
  revert st. induction l as [|a l IH]; intros st H; [exact H |].
  apply IH. destruct a as [page | url link]; cbn [attempt].
  - destruct (guard maxUrlsToCrawl st); [now apply iteration_sessionFree | exact H].
  - now apply processLink_sessionFree.
Qed.

End SessionFree.

(** X18.  In every state the frontier reaches, no queued URL is already
    crawled.  So the check that skips an already crawled URL never fires:
    a pass through the loop always starts the crawl of the URL at the head
    of the queue and marks it as crawled. *)
Theorem dequeued_urls_are_fresh
  (newURL : string -> option string -> option URL)
  (startUrl : string) (maxUrlsToCrawl : nat) (baseUrlObj : URL)
  (l : list Attempt) :
  let st := attempts newURL maxUrlsToCrawl baseUrlObj l (init startUrl) in
  (forall u, u ∈ urlQueue st -> u ∉ crawledUrls st) /\
  (forall page url rest,
     urlQueue st = url :: rest ->
     started (iteration newURL baseUrlObj page st) = started st ++ [url] /\
     crawledUrls (iteration newURL baseUrlObj page st)
     = {[url]} ∪ crawledUrls st).
Proof.
  intros st.
  destruct (attempts_invariants newURL startUrl maxUrlsToCrawl baseUrlObj l
              (init startUrl) (init_invariants startUrl baseUrlObj))
    as [_ Hp].
  fold st in Hp. split; [exact Hp |].
  intros page url rest Hq.
  rewrite (iteration_fresh newURL baseUrlObj page st url rest Hp Hq).
  destruct (page url) as [links|]; [| split; reflexivity].
  destruct (processLinks_visited newURL baseUrlObj url links
              (mkState rest ({[url]} ∪ crawledUrls st) (started st ++ [url])))
    as [-> ->].
  split; reflexivity.
Qed.

(** X19.  The crawl is first-in first-out.  The URLs discovered so far
    (those started, then those queued) are pairwise distinct, and running
    on only appends to them; the crawls started are always the first of
    the discovered URLs, in that order, beginning with the start URL. *)
Theorem crawl_order_is_discovery_order
  (newURL : string -> option string -> option URL)
  (startUrl : string) (maxUrlsToCrawl : nat) (baseUrlObj : URL)
  (page : string -> option (list string)) (fuel k : nat) :
  let st := crawlLoop newURL maxUrlsToCrawl baseUrlObj fuel page
              (init startUrl) in
  let st' := crawlLoop newURL maxUrlsToCrawl baseUrlObj (fuel + k) page
               (init startUrl) in
  NoDup (discovered st) /\
  discovered st `prefix_of` discovered st' /\
  started st `prefix_of` started st' /\
  started st' `prefix_of` discovered st' /\
  ((0 < fuel)%nat -> (0 < maxUrlsToCrawl)%nat ->
   head (started st) = Some startUrl).
Proof.
  intros st st'.
  pose proof (init_invariants startUrl baseUrlObj) as Hinit.
  pose proof (crawlLoop_invariants newURL startUrl maxUrlsToCrawl baseUrlObj
                fuel page (init startUrl) Hinit) as [[Hnd _] Hp].
  pose proof (crawlLoop_visitInv newURL maxUrlsToCrawl baseUrlObj fuel page
                (init startUrl) (init_visitInv startUrl maxUrlsToCrawl))
    as [Hsnd [Hset _]].
  fold st in Hnd, Hp, Hsnd, Hset.
  split; [| split; [| split; [| split]]].
  - unfold discovered. apply NoDup_app. split; [exact Hsnd |].
    split; [| exact Hnd].
    intros u Hu Hq. apply (Hp u Hq). now apply Hset.
  - subst st st'. rewrite crawlLoop_add.
    apply (crawlLoop_discovered newURL startUrl).
    now apply crawlLoop_invariants.
  - subst st st'. rewrite crawlLoop_add.
    apply (crawlLoop_discovered newURL startUrl).
    now apply crawlLoop_invariants.
  - unfold discovered. now apply prefix_app_r.
  - intros Hfuel Hmax. subst st.
    destruct fuel as [|fuel]; [lia |].
    change (S fuel) with (1 + fuel)%nat. rewrite crawlLoop_add.
    set (st1 := crawlLoop newURL maxUrlsToCrawl baseUrlObj 1 page
                  (init startUrl)).
    assert (H1 : started st1 = [startUrl]).
    { subst st1. cbn [crawlLoop].
      replace (guard maxUrlsToCrawl (init startUrl)) with true.
      - destruct (Hinit) as [_ Hp0].
        rewrite (iteration_fresh newURL baseUrlObj page (init startUrl)
                   startUrl [] Hp0 eq_refl).
        destruct (page startUrl) as [links|]; [| reflexivity].
        destruct (processLinks_visited newURL baseUrlObj startUrl links
                    (mkState [] ({[startUrl]} ∪ crawledUrls (init startUrl))
                       (started (init startUrl) ++ [startUrl])))
          as [_ ->].
        reflexivity.
      - symmetry. apply guard_spec. cbn. split; [discriminate |].
        rewrite size_empty. exact Hmax. }
    destruct (crawlLoop_discovered newURL startUrl maxUrlsToCrawl baseUrlObj
                fuel page st1) as [_ [rest Hrest]].
    { apply crawlLoop_invariants, Hinit. }
    rewrite Hrest, H1. reflexivity.
Qed.

(** X20.  Apart from the start URL itself, no login, logout, signin or
    signout page (a URL containing "/login", "/logout", "/signin" or
    "/signout") is ever queued or crawled. *)
Theorem session_pages_never_crawled
  (newURL : string -> option string -> option URL)
  (startUrl : string) (maxUrlsToCrawl : nat) (baseUrlObj : URL)
  (l : list Attempt) :
  let st := attempts newURL maxUrlsToCrawl baseUrlObj l (init startUrl) in
  Forall
    (fun q =>
       q = startUrl \/
       forall w, w ∈ ["/login"; "/logout"; "/signin"; "/signout"] ->
         forall pre post, q <> pre +:+ w +:+ post)
    (started st ++ urlQueue st).
Proof.
  intros st.
  assert (Hinv : sessionFreeInv startUrl st).
  { apply attempts_sessionFree. unfold sessionFreeInv. cbn.
    constructor; [now left | constructor]. }
  unfold sessionFreeInv in Hinv.
  eapply Forall_impl; [exact Hinv |]. cbn.
  intros q [-> | Hs]; [now left |].
  right. intros w Hw pre post Heq.
  apply not_true_iff_false in Hs. apply Hs.
  apply isSessionPage_spec. eauto.
Qed.

(** X21.  The loop stops only when the queue is empty or exactly
    [maxUrlsToCrawl] crawls have been started. *)
Theorem loop_stops_when_done
  (newURL : string -> option string -> option URL)
  (startUrl : string) (maxUrlsToCrawl : nat) (baseUrlObj : URL)
  (page : string -> option (list string)) (fuel : nat) :
  let st := crawlLoop newURL maxUrlsToCrawl baseUrlObj fuel page
              (init startUrl) in
  guard maxUrlsToCrawl st = false ->
  urlQueue st = [] \/ length (started st) = maxUrlsToCrawl.
Proof.
  intros st Hg.
  pose proof (crawlLoop_visitInv newURL maxUrlsToCrawl baseUrlObj fuel page
                (init startUrl) (init_visitInv startUrl maxUrlsToCrawl))
    as [_ [_ [Hlen Hmax]]].
  fold st in Hlen, Hmax.
  destruct (urlQueue st) as [|u rest] eqn:Hq; [now left |]. right.
  apply not_true_iff_false in Hg.
  destruct (Nat.eq_dec (length (started st)) maxUrlsToCrawl) as [He | Hne];
    [exact He |].
  exfalso. apply Hg. apply guard_spec. rewrite Hq. split; [discriminate | lia].
Qed.

Lemma loop_stops_when_done_witness :
  let st := crawlLoop readURL 2 runnerBaseUrlObj 5 samplePage
              (init runnerStartUrl) in
  guard 2 st = false /\
  (urlQueue st = [] \/ length (started st) = 2%nat) /\
  started st =
  ["https://www.testdummy.ai/dashboard"; "https://www.testdummy.ai/reports"].
Proof.
  split; [reflexivity |]. split; [| reflexivity].
  apply loop_stops_when_done. reflexivity.
Defined.

(** ** Crawling a URL and a list of URLs *)

Section CrawlerFacts.
Context {Log : Type} (logger : LogLine -> Log -> Log).
Variable extract : string -> list ElementInfo + string.
Variable now : Z.
Variable iso : string.
Variable newURL : string -> Frontier.URL + string.

Local Abbreviation crawlUrl := (Crawler.crawlUrl logger extract now iso newURL).
Local Abbreviation crawlUrls := (Crawler.crawlUrls logger extract now iso newURL).

(** The actions either classifier returns belong to the crawl result. *)
Lemma rule_actions_belong (cr : CrawlResult) (log : Log) :
  Forall (fun a =>
            UA.url a = CR.url cr /\
            forall e, e ∈ UA.elements a -> e ∈ CR.elements cr)
    (analyzeActions logger cr log).1.
Proof.
  pose proof (rule_actions_url logger cr log) as Hs.
  assert (Hg : Forall (groundedIn (CR.elements cr)) (analyzeActions logger cr log).1).
  { unfold analyzeActions. cbn [fst]. rewrite app_nil_l.
    repeat (apply Forall_app; split);
      [apply identifyLoginForms_grounded | apply identifySearchInterfaces_grounded
      | apply identifyNavigationMenus_grounded | apply identifyForms_grounded]. }
  rewrite Forall_forall in Hs, Hg. apply Forall_forall. intros a Ha.
  split; [apply (Hs a Ha) | apply (Hg a Ha)].
Qed.

Lemma llm_actions_belong (cr : CrawlResult)
  (response : option (list LLM.RawAction)) (log : Log) :
  Forall (fun a =>
            UA.url a = CR.url cr /\
            forall e, e ∈ UA.elements a -> e ∈ CR.elements cr)
    (LLM.analyzeActions logger cr response log).1.
Proof.
  destruct response as [actions|]; [| constructor].
  cbn [LLM.analyzeActions fst]. apply Forall_forall. intros a Ha.
  apply list_elem_of_fmap in Ha as [raw [-> _]]. split; [reflexivity |].
  cbn. intros e He. apply list_elem_of_omap in He as [i [_ Hi]].
  now apply elementAt_Some in Hi.
Qed.

(** What a successful [crawlUrl] returned, and what it wrote. *)
Lemma crawlUrl_success (url : string) (options : Crawler.Options)
  (w w' : Crawler.World) (r : Crawler.Outcome) :
  crawlUrl url options w = (inl r, w') ->
  exists elements,
    extract url = inl elements /\
    Crawler.crawlResult r = CR.mk url elements now /\
    (Crawler.userActions r = None <-> Crawler.wantsActions options = false) /\
    (forall actions, Crawler.userActions r = Some actions ->
       exists log0,
         actions =
         match CrawlOptions.useLLM options, CrawlOptions.llmClient options with
         | Some true, Some client =>
           (LLM.analyzeActions logger (Crawler.crawlResult r)
              (client (Crawler.crawlResult r)) log0).1
         | _, _ => (analyzeActions logger (Crawler.crawlResult r) log0).1
         end) /\
    (JS.truthy (CrawlOptions.outputDir options) = false -> w'.2 = w.2).
Proof.
  destruct w as [log files]. unfold Crawler.crawlUrl, Crawler.crawlPage.
  destruct (extract url) as [elements | message]; [| discriminate].
  set (cr := CR.mk url elements now).
  set (log2 := logger _ (logger _ log)).
  destruct (Crawler.wantsActions options) eqn:Hw.
  - set (res := match CrawlOptions.useLLM options,
                      CrawlOptions.llmClient options with
                | Some true, Some client =>
                  LLM.analyzeActions logger cr (client cr) log2
                | _, _ => analyzeActions logger cr log2
                end).
    assert (Hres : res.1 =
                   match CrawlOptions.useLLM options,
                         CrawlOptions.llmClient options with
                   | Some true, Some client =>
                     (LLM.analyzeActions logger cr (client cr) log2).1
                   | _, _ => (analyzeActions logger cr log2).1
                   end).
    { subst res. destruct (CrawlOptions.useLLM options) as [[|]|];
        destruct (CrawlOptions.llmClient options); reflexivity. }
    destruct res as [actions log'] eqn:Eres. cbn [fst] in Hres.
    destruct (JS.truthy (CrawlOptions.outputDir options)).
    + unfold Crawler.saveResults. cbn [CR.url cr].
      destruct (newURL _) as [urlObj | message]; [| discriminate].
      intros H. injection H as <- <-. exists elements. cbn.
      split; [reflexivity |]. split; [reflexivity |].
      split; [split; discriminate |].
      split; [| discriminate].
      intros acts Hacts. injection Hacts as <-. exists log2. exact Hres.
    + intros H. injection H as <- <-. exists elements. cbn.
      split; [reflexivity |]. split; [reflexivity |].
      split; [split; discriminate |].
      split; [| reflexivity].
      intros acts Hacts. injection Hacts as <-. exists log2. exact Hres.
  - destruct (JS.truthy (CrawlOptions.outputDir options)).
    + unfold Crawler.saveResults. cbn [CR.url cr].
      destruct (newURL _) as [urlObj | message]; [| discriminate].
      intros H. injection H as <- <-. exists elements. cbn.
      split; [reflexivity |]. split; [reflexivity |].
      split; [split; reflexivity |].
      split; [discriminate | discriminate].
    + intros H. injection H as <- <-. exists elements. cbn.
      split; [reflexivity |]. split; [reflexivity |].
      split; [split; reflexivity |].
      split; [discriminate | reflexivity].
Qed.

Lemma crawlUrl_outcomeFor (url : string) (options : Crawler.Options)
  (w w' : Crawler.World) (r : Crawler.Outcome) :
  crawlUrl url options w = (inl r, w') -> outcomeFor url r.
Proof.
  intros H. apply crawlUrl_success in H
    as [elements [_ [Hcr [_ [Hacts _]]]]].
  unfold outcomeFor. split; [now rewrite Hcr |].
  destruct (Crawler.userActions r) as [actions|]; [| exact I].
  destruct (Hacts actions eq_refl) as [log0 ->].
  replace url with (CR.url (Crawler.crawlResult r)) by now rewrite Hcr.
  destruct (CrawlOptions.useLLM options) as [[|]|];
    destruct (CrawlOptions.llmClient options);
    first [apply llm_actions_belong | apply rule_actions_belong].
Qed.

(** Without an output directory, [crawlUrl] fails exactly when the page
    does. *)
Lemma crawlUrl_without_saving (url : string) (options : Crawler.Options)
  (w : Crawler.World) :
  JS.truthy (CrawlOptions.outputDir options) = false ->
  match extract url with
  | inl _ => exists r w', crawlUrl url options w = (inl r, w')
  | inr message => exists w', crawlUrl url options w = (inr message, w')
  end.
Proof.
  intros Hout. destruct w as [log files].
  unfold Crawler.crawlUrl, Crawler.crawlPage.
  destruct (extract url) as [elements | message]; [| eauto].
  destruct (Crawler.wantsActions options).
  - destruct (match CrawlOptions.useLLM options,
                    CrawlOptions.llmClient options with
              | Some true, Some client => _
              | _, _ => _
              end) as [actions log'].
    rewrite Hout. eauto.
  - rewrite Hout. eauto.
Qed.

End CrawlerFacts.

(** X22.  When [crawlUrl] succeeds, the crawl result is for the requested
    URL and holds the elements the page yielded; every action returned,
    by either classifier, carries that URL and is made of elements of that
    crawl result.  Actions are left out exactly when [analyzeActions] is
    [false]; without an LLM client they are the rule-based ones even if
    [useLLM] is set; and nothing is written without an output
    directory. *)
Theorem crawlUrl_outcome {Log : Type} (logger : LogLine -> Log -> Log)
  (extract : string -> list ElementInfo + string) (now : Z) (iso : string)
  (newURL : string -> Frontier.URL + string)
  (url : string) (options : Crawler.Options) (w w' : @Crawler.World Log)
  (r : Crawler.Outcome) :
  Crawler.crawlUrl logger extract now iso newURL url options w = (inl r, w') ->
  outcomeFor url r /\
  extract url = inl (CR.elements (Crawler.crawlResult r)) /\
  (Crawler.userActions r = None <->
   CrawlOptions.analyzeActions options = Some false) /\
  (CrawlOptions.llmClient options = None ->
   forall actions log0,
     Crawler.userActions r = Some actions ->
     actions = (analyzeActions logger (Crawler.crawlResult r) log0).1) /\
  (JS.truthy (CrawlOptions.outputDir options) = false -> w'.2 = w.2).
Proof.
  intros H.
  pose proof (crawlUrl_outcomeFor logger extract now iso newURL url options
                w w' r H) as Hfor.
  apply crawlUrl_success in H
    as [elements [Hex [Hcr [Hnone [Hacts Hfiles]]]]].
  split; [exact Hfor |]. split; [now rewrite Hcr |].
  split; [| split; [| exact Hfiles]].
  - rewrite Hnone. unfold Crawler.wantsActions.
    destruct (CrawlOptions.analyzeActions options) as [[|]|];
      split; congruence.
  - intros Hclient actions log0 Ha.
    destruct (Hacts actions Ha) as [log1 ->]. rewrite Hclient.
    destruct (CrawlOptions.useLLM options) as [[|]|]; reflexivity.
Qed.

Lemma crawlUrl_outcome_witness :
  let options :=
    CrawlOptions.mk (Some "out") None (Some true) None in
  exists r w',
    Crawler.crawlUrl (fun line (log : list string) => log ++ [message line])
      sampleExtract 0 "2026-11-02T12:30:45.123Z" sampleNewURL
      "https://www.testdummy.ai/login" options ([], [])
    = (inl r, w') /\
    outcomeFor "https://www.testdummy.ai/login" r /\
    w'.2 =
    [("out", "www_testdummy_ai_login_crawl_2026-11-02T12-30-45-123Z.json");
     ("out", "www_testdummy_ai_login_actions_2026-11-02T12-30-45-123Z.json")].
Proof.
  intros options. eexists _, _. split; [vm_compute; reflexivity |].
  split; [| reflexivity].
  eapply (crawlUrl_outcome
            (fun line (log : list string) => log ++ [message line])
            sampleExtract 0 "2026-11-02T12:30:45.123Z" sampleNewURL
            "https://www.testdummy.ai/login" options ([], [])).
  vm_compute. reflexivity.
Defined.

(** X23.  [crawlUrls] returns the outcomes of the URLs that could be
    crawled, in the order of the URLs; a URL that fails is skipped and the
    run goes on.  Each outcome is for its own URL.  Without an output
    directory the outcomes are exactly those of the URLs whose page could
    be extracted. *)
Theorem crawlUrls_results {Log : Type} (logger : LogLine -> Log -> Log)
  (extract : string -> list ElementInfo + string) (now : Z) (iso : string)
  (newURL : string -> Frontier.URL + string)
  (urls : list string) (options : Crawler.Options) (w : @Crawler.World Log) :
  let results :=
    (Crawler.crawlUrls logger extract now iso newURL urls options w).1 in
  let urlOf r := CR.url (Crawler.crawlResult r) in
  map urlOf results `sublist_of` urls /\
  Forall (fun r => outcomeFor (urlOf r) r) results /\
  (JS.truthy (CrawlOptions.outputDir options) = false ->
   map urlOf results =
   List.filter (fun u => match extract u with inl _ => true | inr _ => false end)
     urls).
Proof.
  intros results urlOf. subst results.
  revert w. induction urls as [|url urls IH]; intros w.
  - cbn. repeat split; constructor.
  - cbn [Crawler.crawlUrls].
    destruct (Crawler.crawlUrl logger extract now iso newURL url options w)
      as [[r | message] w'] eqn:Hc.
    + pose proof (crawlUrl_outcomeFor logger extract now iso newURL url
                    options w w' r Hc) as Hfor.
      apply crawlUrl_success in Hc as [elements [Hex _]].
      destruct (IH w') as [Hsub [Hall Hfilter]].
      destruct (Crawler.crawlUrls logger extract now iso newURL urls options w')
        as [rs w''].
      assert (Hurl : urlOf r = url) by apply Hfor.
      cbn [fst map]. rewrite Hurl. split; [now apply sublist_skip |].
      split; [constructor; [now rewrite Hurl | exact Hall] |].
      intros Hout. cbn [List.filter]. rewrite Hex. f_equal. now apply Hfilter.
    + destruct w' as [log files].
      destruct (IH (logger (mkLogLine "crawler"
                              ("Error crawling " +:+ url +:+ ": " +:+ message)
                              1) log, files)) as [Hsub [Hall Hfilter]].
      split; [now apply sublist_cons |]. split; [exact Hall |].
      intros Hout. cbn [List.filter].
      pose proof (crawlUrl_without_saving logger extract now iso newURL url
                    options w Hout) as Hw.
      destruct (extract url) as [elements | msg].
      * destruct Hw as [r [w2 Hw]]. congruence.
      * now apply Hfilter.
Qed.

Example crawlUrls_skips_failures :
  map (fun r => (CR.url (Crawler.crawlResult r),
                 option_map (map UA.type) (Crawler.userActions r)))
    (Crawler.crawlUrls (fun line (log : list string) => log ++ [message line])
       sampleExtract 0 "2026-11-02T12:30:45.123Z" sampleNewURL
       ["https://www.testdummy.ai/login"; "https://unknown.example/";
        "https://www.testdummy.ai/signup"]
       (CrawlOptions.mk None None None None) ([], [])).1
  = [("https://www.testdummy.ai/login", Some ["login"]);
     ("https://www.testdummy.ai/signup", Some ["login"; "registration"])].
Proof. vm_compute. reflexivity. Qed.
